(** * image2qtree: option validation and the mosaic pipeline

    A shallow embedding of [src/vw/tools/image2qtree.h]: the [Options]
    structure with [Options::validate], and the function template
    [do_mosaic] (reprojection of every input, composite assembly, the
    KML bounding-box aligner, the stamping of the quad-tree
    configuration).

    Conventions.
    - A C++ [int] is a [Z]; the arithmetic written in the header goes
      through [Int32], which writes the two's-complement wrap-around out.
    - A [float] or [double] is an exact rational ([Q]), except where the
      header computes with it: the longitude/latitude box stamped on the
      configuration is computed on binary64 floats ([PrimFloat]), and
      [(int)(log(x)/log(2.))] is [ilog2].
    - Exceptions and the actions performed on the collaborators (image
      files, composite, quad-tree generator) are threaded through the
      monad [M]: an error result together with the trace of actions
      performed so far. *)

From Stdlib Require Import ZArith QArith Qabs List String Ascii Bool Lia Lqa.
From Stdlib Require PrimFloat Uint63.
Import ListNotations.
Local Open Scope Z_scope.

(* ------------------------------------------------------------------ *)
(** ** 32-bit signed integers *)

Module Int32.

Definition min_int : Z := - 2 ^ 31.
Definition max_int : Z := 2 ^ 31 - 1.

(** The representable range of [int]. *)
Definition in_range (z : Z) : Prop := min_int <= z <= max_int.

(** Two's-complement reduction of a mathematical integer. *)
Definition wrap (z : Z) : Z := (z + 2 ^ 31) mod 2 ^ 32 - 2 ^ 31.

Definition add (a b : Z) : Z := wrap (a + b).
Definition sub (a b : Z) : Z := wrap (a - b).
Definition mul (a b : Z) : Z := wrap (a * b).

(** [a / b] of C++: the quotient truncated toward zero. *)
Definition quot (a b : Z) : Z := wrap (Z.quot a b).

(** [a << k]. *)
Definition shl (a k : Z) : Z := wrap (Z.shiftl a k).

End Int32.

(** [(int)(log((double)m)/log(2.))].  For [1 <= m < 2^31] the quotient of
    the two logarithms lies in [[k, k+1)] where [2^k <= m < 2^(k+1)], and
    the conversion to [int] truncates it to [k]: the integer binary
    logarithm. *)
Definition ilog2 (m : Z) : Z := Z.log2 m.

(* ------------------------------------------------------------------ *)
(** ** Bounding boxes *)

(** Modelled from the spec: [vw/Math/BBox.h] ([BBox2i], [BBox2]) is not
    among the sources.  A box is its [min] and [max] corner; the data
    model calls it a pixel rectangle, the composite exposes "the union
    bounding box", and the aligner crops "to the valid output canvas".
    The operations below carry that meaning: extent, containment,
    intersection and union on the corners. *)
Record BBox2i : Type := mkBBox2i
  { min_x : Z; min_y : Z; max_x : Z; max_y : Z }.

(** [BBox2i(x, y, width, height)]. *)
Definition BBox2i_xywh (x y w h : Z) : BBox2i :=
  mkBBox2i x y (x + w) (y + h).

Definition width (b : BBox2i) : Z := max_x b - min_x b.
Definition height (b : BBox2i) : Z := max_y b - min_y b.

(** [outer.contains(b)]. *)
Definition contains (outer b : BBox2i) : bool :=
  (min_x outer <=? min_x b) && (max_x b <=? max_x outer) &&
  (min_y outer <=? min_y b) && (max_y b <=? max_y outer).

(** [b.crop(c)]: the part of [b] inside [c]. *)
Definition crop (b c : BBox2i) : BBox2i :=
  mkBBox2i (Z.max (min_x b) (min_x c)) (Z.max (min_y b) (min_y c))
           (Z.min (max_x b) (max_x c)) (Z.min (max_y b) (max_y c)).

(** [b.grow(c)]: the smallest box around both. *)
Definition grow (b c : BBox2i) : BBox2i :=
  mkBBox2i (Z.min (min_x b) (min_x c)) (Z.min (min_y b) (min_y c))
           (Z.max (max_x b) (max_x c)) (Z.max (max_y b) (max_y c)).

(** The box of nothing: the corners at the opposite ends of [int], so that
    [grow] of it with any box is that box. *)
Definition empty_bbox : BBox2i :=
  mkBBox2i Int32.max_int Int32.max_int Int32.min_int Int32.min_int.

(** [b -= v]: translation. *)
Definition shift (b : BBox2i) (dx dy : Z) : BBox2i :=
  mkBBox2i (min_x b - dx) (min_y b - dy) (max_x b - dx) (max_y b - dy).

(** Assignments through the references [min().x()], [max().x()], ... *)
Definition set_min_x (b : BBox2i) (v : Z) : BBox2i :=
  mkBBox2i v (min_y b) (max_x b) (max_y b).
Definition set_max_x (b : BBox2i) (v : Z) : BBox2i :=
  mkBBox2i (min_x b) (min_y b) v (max_y b).
Definition set_min_y (b : BBox2i) (v : Z) : BBox2i :=
  mkBBox2i (min_x b) v (max_x b) (max_y b).
Definition set_max_y (b : BBox2i) (v : Z) : BBox2i :=
  mkBBox2i (min_x b) (min_y b) (max_x b) v.

(** Conversion of an [int] to [double]: exact, an [int] has 32 bits. *)
Definition double_of_int (z : Z) : PrimFloat.float :=
  if z <? 0
  then PrimFloat.opp (PrimFloat.of_uint63 (Uint63.of_Z (- z)))
  else PrimFloat.of_uint63 (Uint63.of_Z z).

(** A box of doubles, [BBox2].  [BBox2(x, y, width, height)] stores the
    corner [(x, y)] and the corner [(x + width, y + height)], the two sums
    rounded to doubles. *)
Record BBox2 : Type := mkBBox2
  { dmin_x : PrimFloat.float; dmin_y : PrimFloat.float;
    dmax_x : PrimFloat.float; dmax_y : PrimFloat.float }.

Definition BBox2_xywh (x y w h : PrimFloat.float) : BBox2 :=
  mkBBox2 x y (PrimFloat.add x w) (PrimFloat.add y h).

(** The same box over the rationals: what [BBox2] would hold if doubles
    did not round. *)
Record BBox2_exact : Type := mkBBox2_exact
  { qmin_x : Q; qmin_y : Q; qmax_x : Q; qmax_y : Q }.

Definition BBox2_exact_xywh (x y w h : Q) : BBox2_exact :=
  mkBBox2_exact x y (x + w)%Q (y + h)%Q.

(* ------------------------------------------------------------------ *)
(** ** The KML bounding-box aligner ([do_mosaic], the [Mode::KML] block) *)

(** [int dim = 2 << (int)(log((double)max(w,h))/log(2.));
    if (dim > total_resolution) dim = total_resolution;] *)
Definition kml_dim (total_resolution : Z) (bbox : BBox2i) : Z :=
  let dim := Int32.shl 2 (ilog2 (Z.max (width bbox) (height bbox))) in
  if total_resolution <? dim then total_resolution else dim.

(** The whole block: snap the origin down to a multiple of [dim], take
    the [dim] x [dim] square there, and when it misses part of [bbox]
    lengthen it by [dim] along both axes.  The block runs after the
    assertion that [bbox] has a positive width and height, where [dim] is
    positive ([aligner_dim]); the division cannot fault there. *)
Definition kml_align (total_resolution xresolution yresolution : Z)
                     (bbox : BBox2i) : BBox2i :=
  let dim := kml_dim total_resolution bbox in
  let total_bbox :=
    BBox2i_xywh (Int32.mul (Int32.quot (min_x bbox) dim) dim)
                (Int32.mul (Int32.quot (min_y bbox) dim) dim) dim dim in
  if negb (contains total_bbox bbox) then
    let b1 :=
      if max_x total_bbox =? xresolution
      then set_min_x total_bbox (Int32.sub (min_x total_bbox) dim)
      else set_max_x total_bbox (Int32.add (max_x total_bbox) dim) in
    if max_y b1 =? yresolution
    then set_min_y b1 (Int32.sub (min_y b1) dim)
    else set_max_y b1 (Int32.add (max_y b1) dim)
  else total_bbox.

(** What the specification says of [dim]: the smallest power of two that
    is at least [m], capped at the total resolution. *)
Definition spec_dim (total_resolution m : Z) : Z :=
  Z.min (2 ^ Z.log2_up m) total_resolution.

(** Powers of two, decidably. *)
Definition is_pow2 (z : Z) : bool := (0 <? z) && (z =? 2 ^ Z.log2 z).

(* ------------------------------------------------------------------ *)
(** ** Enumerations ([VW_DEFINE_ENUM_PROTO]) *)

Module Channel.
Inductive t : Type := NONE | UINT8 | UINT16 | INT16 | FLOAT.
End Channel.

Module Mode.
Inductive t : Type := NONE | KML | TMS | UNIVIEW | GMAP | CELESTIA | GIGAPAN.

Definition eqb (a b : t) : bool :=
  match a, b with
  | NONE, NONE | KML, KML | TMS, TMS | UNIVIEW, UNIVIEW
  | GMAP, GMAP | CELESTIA, CELESTIA | GIGAPAN, GIGAPAN => true
  | _, _ => false
  end.
End Mode.

Module DatumOverride.
Inductive t : Type := NONE | WGS84 | LUNAR | MARS | SPHERE.

Definition eqb (a b : t) : bool :=
  match a, b with
  | NONE, NONE | WGS84, WGS84 | LUNAR, LUNAR | MARS, MARS
  | SPHERE, SPHERE => true
  | _, _ => false
  end.
End DatumOverride.

Module Projection.
Inductive t : Type :=
  | DEFAULT | NONE | SINUSOIDAL | MERCATOR | TRANSVERSE_MERCATOR
  | ORTHOGRAPHIC | STEREOGRAPHIC | LAMBERT_AZIMUTHAL
  | LAMBERT_CONFORMAL_CONIC | UTM | PLATE_CARREE.

Definition is_NONE (a : t) : bool :=
  match a with NONE => true | _ => false end.
End Projection.

(* ------------------------------------------------------------------ *)
(** ** Options *)

(** Modelled from the spec: [vw::tools::Tristate] ([vw/tools/Common.h]) is
    not among the sources.  The design notes describe it as the
    unset / explicit-value option pattern: a value that is either the
    default or one given explicitly, [set()] telling which; assigning a
    value makes it explicit. *)
Module Tristate.
Record t (A : Type) : Type := mk { value : A; set : bool }.
Arguments mk {A} _ _.
Arguments value {A} _.
Arguments set {A} _.

(** [x = v]. *)
Definition assign {A : Type} (x : t A) (v : A) : t A := mk v true.
End Tristate.

(** [Options::kml]. *)
Module kml_.
Record t : Type := mk { draw_order_offset : Z; max_lod_pixels : Z }.
End kml_.

(** [Options::proj_]. *)
Module proj_.
Record t : Type := mk
  { type : Projection.t;
    lat : Tristate.t Q; lon : Tristate.t Q; scale : Tristate.t Q;
    p1 : Tristate.t Q; p2 : Tristate.t Q;
    utm_zone : Tristate.t Z }.
End proj_.

(** [Options::datum_]. *)
Module datum_.
Record t : Type := mk
  { type : DatumOverride.t; sphere_radius : Tristate.t Q }.
End datum_.

Record Options : Type := mkOptions
  { input_files : list string;
    output_file_name : string;
    output_file_type : Tristate.t string;
    module_name : Tristate.t string;
    nudge_x : Tristate.t Q;
    nudge_y : Tristate.t Q;
    tile_size : Tristate.t Z;
    jpeg_quality : Tristate.t Q;
    png_compression : Tristate.t Z;
    pixel_scale : Tristate.t Q;
    pixel_offset : Tristate.t Q;
    aspect_ratio : Tristate.t Z;
    global_resolution : Tristate.t Z;
    nodata : Tristate.t Q;
    north : Tristate.t Q;
    south : Tristate.t Q;
    east : Tristate.t Q;
    west : Tristate.t Q;
    channel_type : Channel.t;
    mode : Mode.t;
    multiband : bool;
    help : bool;
    normalize : bool;
    terrain : bool;
    manual : bool;
    global : bool;
    kml : kml_.t;
    proj : proj_.t;
    datum : datum_.t }.

(** [output_file_name = s]. *)
Definition set_output_file_name (o : Options) (s : string) : Options :=
  mkOptions (input_files o) s (output_file_type o) (module_name o)
    (nudge_x o) (nudge_y o) (tile_size o) (jpeg_quality o)
    (png_compression o) (pixel_scale o) (pixel_offset o) (aspect_ratio o)
    (global_resolution o) (nodata o) (north o) (south o) (east o) (west o)
    (channel_type o) (mode o) (multiband o) (help o) (normalize o)
    (terrain o) (manual o) (global o) (kml o) (proj o) (datum o).

(** [north = n; south = s; east = e; west = w]. *)
Definition set_bounds (o : Options) (n s e w : Q) : Options :=
  mkOptions (input_files o) (output_file_name o) (output_file_type o)
    (module_name o) (nudge_x o) (nudge_y o) (tile_size o) (jpeg_quality o)
    (png_compression o) (pixel_scale o) (pixel_offset o) (aspect_ratio o)
    (global_resolution o) (nodata o)
    (Tristate.assign (north o) n) (Tristate.assign (south o) s)
    (Tristate.assign (east o) e) (Tristate.assign (west o) w)
    (channel_type o) (mode o) (multiband o) (help o) (normalize o)
    (terrain o) (manual o) (global o) (kml o) (proj o) (datum o).

(** [manual = b]. *)
Definition set_manual (o : Options) (b : bool) : Options :=
  mkOptions (input_files o) (output_file_name o) (output_file_type o)
    (module_name o) (nudge_x o) (nudge_y o) (tile_size o) (jpeg_quality o)
    (png_compression o) (pixel_scale o) (pixel_offset o) (aspect_ratio o)
    (global_resolution o) (nodata o) (north o) (south o) (east o) (west o)
    (channel_type o) (mode o) (multiband o) (help o) (normalize o)
    (terrain o) b (global o) (kml o) (proj o) (datum o).

(* ------------------------------------------------------------------ *)
(** ** Strings: the two path and string helpers of Boost *)

Definition is_space (c : ascii) : bool :=
  let n := nat_of_ascii c in
  Nat.eqb n 32 || (Nat.leb 9 n && Nat.leb n 13).

Fixpoint trim_left (s : string) : string :=
  match s with
  | EmptyString => EmptyString
  | String c s' => if is_space c then trim_left s' else s
  end.

Fixpoint trim_right (s : string) : string :=
  match s with
  | EmptyString => EmptyString
  | String c s' =>
      match trim_right s' with
      | EmptyString => if is_space c then EmptyString else String c EmptyString
      | r => String c r
      end
  end.

(** [boost::trim_copy]: the string without the white space at its ends. *)
Definition trim_copy (s : string) : string := trim_right (trim_left s).

(** The number of characters of the extension of a path given backwards:
    up to and with the last dot of the file name, nothing when the file
    name has no dot. *)
Fixpoint extension_length (rev_path : list ascii) (n : nat) : nat :=
  match rev_path with
  | [] => 0
  | c :: r =>
      if Ascii.eqb c "/"%char then 0%nat
      else if Ascii.eqb c "."%char then S n
      else extension_length r (S n)
  end.

(** The file name of a path given backwards. *)
Fixpoint rev_filename (rev_path : list ascii) : list ascii :=
  match rev_path with
  | [] => []
  | c :: r => if Ascii.eqb c "/"%char then [] else c :: rev_filename r
  end.

(** [fs::path(p).replace_extension().string()]: the path without the
    extension of its file name; the file names [.] and [..] have none. *)
Definition replace_extension (p : string) : string :=
  let r := rev (list_ascii_of_string p) in
  let name := string_of_list_ascii (rev_filename r) in
  if String.eqb name "." || String.eqb name ".." then p
  else string_of_list_ascii (rev (skipn (extension_length r 0) r)).

(* ------------------------------------------------------------------ *)
(** ** Exceptions and actions *)

Inductive Exception : Type :=
  | Usage (msg : string)          (* vw::tools::Usage() << msg *)
  | LogicErr (msg : string)       (* vw::LogicErr() << msg *)
  | ArithmeticFault.              (* integer division by zero *)

(** The calls made on the collaborators, in the order they are made. *)
Inductive Event : Type :=
  | set_default_quality (q : Q)
  | set_default_compression_level (c : Z)
  | open_image (file : string)
  | set_draft_mode (b : bool)
  | prepare (total_bbox : BBox2i)
  | set_longlat_bbox (ll_bbox : BBox2)
  | set_max_lod_pixels (n : Z)
  | set_draw_order_offset (n : Z)
  | set_module (name : string)
  | set_terrain (b : bool)
  | configure (m : Mode.t)
  | set_tile_size (n : Z)
  | set_file_type (s : string)
  | set_crop_bbox (b : BBox2i)
  | generate.

(** A computation that may throw, over the trace of actions. *)
Definition M (A : Type) : Type :=
  list Event -> (Exception + A) * list Event.

Definition ret {A : Type} (a : A) : M A := fun t => (inr a, t).

Definition bind {A B : Type} (m : M A) (f : A -> M B) : M B :=
  fun t =>
    match m t with
    | (inl e, t') => (inl e, t')
    | (inr a, t') => f a t'
    end.

Definition throw {A : Type} (e : Exception) : M A := fun t => (inl e, t).

Definition emit (e : Event) : M unit := fun t => (inr tt, t ++ [e]).

Notation "x <- m ;; k" := (bind m (fun x => k))
  (at level 61, m at next level, right associativity).
Notation "m ;; k" := (bind m (fun _ => k))
  (at level 61, right associativity).

(** Modelled from the spec: the macro [VW_ASSERT] ([vw/Core/Exception.h])
    is not among the sources.  The checks it guards are described as
    "otherwise fails with" the error: [VW_ASSERT(cond, excep)] throws
    [excep] unless [cond] holds. *)
Definition VW_ASSERT (cond : bool) (excep : Exception) : M unit :=
  if cond then ret tt else throw excep.

(** [if (c) m;] *)
Definition when (c : bool) (m : M unit) : M unit :=
  if c then m else ret tt.

(** [a / b] on [int], which faults on a zero divisor and on the one
    quotient that does not fit. *)
Definition div32 (a b : Z) : M Z :=
  if (b =? 0) || ((a =? Int32.min_int) && (b =? -1))
  then throw ArithmeticFault
  else ret (Z.quot a b).

(* ------------------------------------------------------------------ *)
(** ** [Options::validate] *)

(** The block that overrides the georeference:
    [if (global || north.set() || ...) { ... manual = true; }] *)
Definition override_georeference (o : Options) : M Options :=
  if global o || Tristate.set (north o) || Tristate.set (south o)
     || Tristate.set (east o) || Tristate.set (west o)
  then
    VW_ASSERT (Nat.eqb (List.length (input_files o)) 1)
      (Usage "Cannot override georeference information on multiple images") ;;
    VW_ASSERT (global o
               || (Tristate.set (north o) && Tristate.set (south o)
                   && Tristate.set (east o) && Tristate.set (west o)))
      (Usage "If you provide one, you must provide all of: --north --south --east --west") ;;
    let o1 := if global o then set_bounds o 90 (-90) 180 (-180) else o in
    ret (set_manual o1 true)
  else ret o.

(** [if (output_file_name.empty())
      output_file_name = fs::path(input_files[0]).replace_extension().string();] *)
Definition default_output_file_name (o : Options) : Options :=
  if String.eqb (output_file_name o) ""
  then set_output_file_name o
         (replace_extension (nth 0 (input_files o) ""%string))
  else o.

Definition validate (o : Options) : M Options :=
  VW_ASSERT (negb (help o)) (Usage "") ;;
  VW_ASSERT (Nat.ltb 0 (List.length (input_files o)))
    (Usage "Need at least one input image") ;;
  when (DatumOverride.eqb (datum_.type (datum o)) DatumOverride.SPHERE)
    (VW_ASSERT (Tristate.set (datum_.sphere_radius (datum o)))
       (Usage "Sphere datum override requires a radius")) ;;
  let o1 := default_output_file_name o in
  o2 <- override_georeference o1 ;;
  match mode o2 with
  | Mode.NONE =>
      VW_ASSERT (Nat.eqb (List.length (input_files o2)) 1)
        (Usage "Non-georeferenced images cannot be composed")
  | Mode.CELESTIA | Mode.UNIVIEW =>
      VW_ASSERT (Tristate.set (module_name o2))
        (Usage "Uniview and Celestia require --module-name")
  | _ => ret tt
  end ;;
  when (Projection.is_NONE (proj_.type (proj o2)))
    (VW_ASSERT (Nat.eqb (List.length (input_files o2)) 1)
       (Usage "Non-georeferenced images cannot be composed")) ;;
  when (Tristate.set (jpeg_quality o2))
    (emit (set_default_quality (Tristate.value (jpeg_quality o2)))) ;;
  when (Tristate.set (png_compression o2))
    (emit (set_default_compression_level
             (Tristate.value (png_compression o2)))) ;;
  ret o2.

(* ------------------------------------------------------------------ *)
(** ** Image views *)

(** The value a pixel is compared with by [create_mask]: a [float]
    converted to the channel type of the pixel, [ChannelT(v)]. *)
Inductive ChannelValue : Type := ChannelT (v : Q).

(** Modelled from the spec: the image library ([vw/Image/...]) is not among
    the sources.  A reprojected source is "a lazily-evaluated raster view
    (the result of applying transform + masking + rescale + normalization
    to one InputDescriptor)": the views [do_mosaic] builds are kept as
    terms, one constructor per library call of the same name. *)
Inductive View : Type :=
  | DiskImageView (file : string) (cols rows : Z)
  | pixel_cast_without_alpha (v : View)
  | create_mask (v : View) (nodata : ChannelValue)
  | mask_to_alpha (v : View)
  | channel_cast_rescale (v : View) (scale offset : Q)
  | normalize_retain_alpha (v : View) (lo hi : Q)
  | interpolate (v : View)
  | transform_only (v : View)
  | transform_cylindrical (v : View) (cols rows : Z)
  | transform_bbox (v : View) (bbox : BBox2i)
  | crop_view (v : View) (bbox : BBox2i).

Fixpoint view_cols (v : View) : Z :=
  match v with
  | DiskImageView _ c _ => c
  | transform_cylindrical _ c _ => c
  | transform_bbox _ b | crop_view _ b => width b
  | pixel_cast_without_alpha v | create_mask v _ | mask_to_alpha v
  | channel_cast_rescale v _ _ | normalize_retain_alpha v _ _
  | interpolate v | transform_only v => view_cols v
  end.

Fixpoint view_rows (v : View) : Z :=
  match v with
  | DiskImageView _ _ r => r
  | transform_cylindrical _ _ r => r
  | transform_bbox _ b | crop_view _ b => height b
  | pixel_cast_without_alpha v | create_mask v _ | mask_to_alpha v
  | channel_cast_rescale v _ _ | normalize_retain_alpha v _ _
  | interpolate v | transform_only v => view_rows v
  end.

(** The nodata values a view masks to transparency, outermost first. *)
Fixpoint masked_values (v : View) : list ChannelValue :=
  match v with
  | DiskImageView _ _ _ => []
  | create_mask v x => x :: masked_values v
  | pixel_cast_without_alpha v | mask_to_alpha v
  | channel_cast_rescale v _ _ | normalize_retain_alpha v _ _
  | interpolate v | transform_only v | transform_cylindrical v _ _
  | transform_bbox v _ | crop_view v _ => masked_values v
  end.

(** Modelled from the spec: the pixel types and the mask views
    ([vw/Image/PixelMask.h], [vw/Image/MaskViews.h]) are not among the
    sources.  The reprojection stage converts "the image to an
    alpha-masked representation where pixels equal to that value become
    transparent", "and all else opaque".  A pixel is its value without
    alpha, the validity that [create_mask] computes and the opacity that
    [mask_to_alpha] derives from it. *)
Record Pixel (V : Type) : Type := mkPixel
  { px_value : V; px_valid : bool; px_opaque : bool }.
Arguments mkPixel {V} _ _ _.
Arguments px_value {V} _.
Arguments px_valid {V} _.
Arguments px_opaque {V} _.

Section PixelSemantics.

(** The values of pixels without alpha, the comparison [pixel == nodata]
    of a pixel with a value of its channel type, and the raster read from
    a file. *)
Variable V : Type.
Variable equals : V -> ChannelValue -> bool.
Variable disk : string -> Z -> Z -> Pixel V.

(** The pixels of a view built from the disk image by the mask views; the
    views that resample or rescale have no pixels here. *)
Fixpoint pixels (v : View) : option (Z -> Z -> Pixel V) :=
  match v with
  | DiskImageView file _ _ => Some (disk file)
  | pixel_cast_without_alpha v =>
      option_map
        (fun r x y => mkPixel (px_value (r x y)) (px_valid (r x y)) true)
        (pixels v)
  | create_mask v nodata =>
      option_map
        (fun r x y =>
           mkPixel (px_value (r x y))
                   (negb (equals (px_value (r x y)) nodata))
                   (px_opaque (r x y)))
        (pixels v)
  | mask_to_alpha v =>
      option_map
        (fun r x y => mkPixel (px_value (r x y)) true (px_valid (r x y)))
        (pixels v)
  | _ => None
  end.

(** The pixels [result] are those of [original] with exactly the pixels
    equal to [nodata] made transparent. *)
Definition made_transparent (original result : Z -> Z -> Pixel V)
                            (nodata : ChannelValue) : Prop :=
  forall x y,
    px_value (result x y) = px_value (original x y) /\
    px_opaque (result x y) = negb (equals (px_value (original x y)) nodata).

End PixelSemantics.

(** The view as the nodata step left it: a view without the rescaling,
    normalisation, interpolation, transforms and crops applied on top. *)
Fixpoint nodata_stage (v : View) : View :=
  match v with
  | channel_cast_rescale v _ _ | normalize_retain_alpha v _ _
  | interpolate v | transform_only v | transform_cylindrical v _ _
  | transform_bbox v _ | crop_view v _ => nodata_stage v
  | _ => v
  end.

(** The number of conversions of a mask to an alpha channel in a view. *)
Fixpoint alpha_conversions (v : View) : nat :=
  match v with
  | DiskImageView _ _ _ => 0
  | mask_to_alpha v => S (alpha_conversions v)
  | pixel_cast_without_alpha v | create_mask v _
  | channel_cast_rescale v _ _ | normalize_retain_alpha v _ _
  | interpolate v | transform_only v | transform_cylindrical v _ _
  | transform_bbox v _ | crop_view v _ => alpha_conversions v
  end.

(** Modelled from the spec: [DiskImageResource], [GeoReference] and
    [GeoTransform] are not among the sources.  This record holds what
    these collaborators answer for one input file: the raster
    ([cols], [rows], the declared nodata value), its georeference
    ([proj4_str], [lonlat_to_pixel]) and the transform to the output
    georeference ([forward_bbox] of the whole image, and the image of the
    origin under [forward] then [reverse]). *)
Record InputImage : Type := mkInputImage
  { cols : Z;
    rows : Z;
    has_nodata_read : bool;
    nodata_read : Q;
    proj4_str : string;
    lonlat_to_pixel : Q * Q -> Q * Q;
    forward_bbox : BBox2i;
    reverse_forward_origin : Q * Q }.

(** [x < y] on doubles. *)
Definition Qlt_bool (x y : Q) : bool := negb (Qle_bool y x).

(** The conjunction [bool global = ...] on the projection string and the
    four mapped coordinates. *)
Definition global_test (proj4 : string) (left_x right_x top_y bottom_y : Q)
                       (source_cols source_rows : Z) : bool :=
  String.eqb (trim_copy proj4) "+proj=longlat"
  && Qlt_bool (Qabs left_x) 1
  && Qlt_bool (Qabs (right_x - inject_Z source_cols)) 1
  && Qlt_bool (Qabs top_y) 1
  && Qlt_bool (Qabs (bottom_y - inject_Z source_rows)) 1.

Definition is_global (img : InputImage) : bool :=
  global_test (proj4_str img)
    (fst (lonlat_to_pixel img (-180, 0)%Q))
    (fst (lonlat_to_pixel img (180, 0)%Q))
    (snd (lonlat_to_pixel img (0, 90)%Q))
    (snd (lonlat_to_pixel img (0, -90)%Q))
    (cols img) (rows img).

(** [if (opt.nodata.set()) ... else if (file->has_nodata_read()) ...] *)
Definition apply_nodata (opt : Options) (img : InputImage) (source : View)
  : View :=
  if Tristate.set (nodata opt)
  then mask_to_alpha
         (create_mask (pixel_cast_without_alpha source)
            (ChannelT (Tristate.value (nodata opt))))
  else if has_nodata_read img
  then mask_to_alpha
         (create_mask (pixel_cast_without_alpha source)
            (ChannelT (nodata_read img)))
  else source.

(** Conversion of a double to [int]: truncation. *)
Definition Qtruncate (q : Q) : Z := Z.quot (Qnum q) (Zpos (Qden q)).

(** [norm_2(reverse(forward(0))) > 0.01 * norm_2(Vector2(cols, rows))],
    compared on the squares. *)
Definition origin_fault (img : InputImage) : bool :=
  let rx := fst (reverse_forward_origin img) in
  let ry := snd (reverse_forward_origin img) in
  Qlt_bool ((1 # 10000) * (inject_Z (cols img) * inject_Z (cols img)
                           + inject_Z (rows img) * inject_Z (rows img)))
           (rx * rx + ry * ry).

(** The body of the loop up to the insertion: the view of one input in
    the output pixel space, and its placement. [lo_value] and [hi_value]
    are the two file-level statics. *)
Definition reproject (opt : Options) (lo_value hi_value : Q)
                     (filename : string) (img : InputImage)
  : View * BBox2i :=
  let source := DiskImageView filename (cols img) (rows img) in
  let source := apply_nodata opt img source in
  let is_glob := is_global img in
  let source :=
    if Tristate.set (pixel_scale opt) || Tristate.set (pixel_offset opt)
    then channel_cast_rescale source (Tristate.value (pixel_scale opt))
                              (Tristate.value (pixel_offset opt))
    else source in
  let source :=
    if normalize opt
    then normalize_retain_alpha source lo_value hi_value
    else source in
  let bbox := forward_bbox img in
  let source :=
    if is_glob
    then crop_view (transform_cylindrical source (view_cols source)
                                          (view_rows source)) bbox
    else if origin_fault img
    then
      let correction :=
        BBox2i_xywh (Qtruncate (- fst (reverse_forward_origin img))) 0
                    (view_cols source) (view_rows source) in
      crop_view (transform_only (crop_view (interpolate source) correction))
                bbox
    else transform_bbox source bbox in
  (source, bbox).

(* ------------------------------------------------------------------ *)
(** ** The composite *)

(** Modelled from the spec: [vw/Mosaic/ImageComposite.h] is not among the
    sources.  The composite "accumulates (ReprojectedSource,
    insertion-offset) pairs; exposes the union bounding box of all
    insertions"; once prepared on a box its rows and columns are those of
    the box, and its footprint is read in the frame of that box. *)
Record Insertion : Type := mkInsertion
  { ins_image : View; ins_x : Z; ins_y : Z }.

Definition ImageComposite : Type := list Insertion.

(** [composite.insert(image, x, y)]. *)
Definition insert (composite : ImageComposite) (image : View) (x y : Z)
  : ImageComposite :=
  composite ++ [mkInsertion image x y].

Definition insertion_bbox (i : Insertion) : BBox2i :=
  BBox2i_xywh (ins_x i) (ins_y i)
              (view_cols (ins_image i)) (view_rows (ins_image i)).

(** [composite.bbox()]. *)
Definition composite_bbox (composite : ImageComposite) : BBox2i :=
  fold_left (fun b i => grow b (insertion_bbox i)) composite empty_bbox.

(** The two insertions of the loop:
    [if (bbox.max().x() > total_resolution) insert(..., min.x - total_resolution, ...);
     if (bbox.min().x() < xresolution) insert(..., min.x, ...);] *)
Definition insert_source (total_resolution xresolution : Z)
                         (composite : ImageComposite)
                         (source : View) (bbox : BBox2i) : ImageComposite :=
  let composite :=
    if total_resolution <? max_x bbox
    then insert composite source
                (Int32.sub (min_x bbox) total_resolution) (min_y bbox)
    else composite in
  if min_x bbox <? xresolution
  then insert composite source (min_x bbox) (min_y bbox)
  else composite.

(** The loop over the input files. *)
Fixpoint assemble (opt : Options) (lo_value hi_value : Q)
                  (total_resolution xresolution : Z)
                  (files : list (string * InputImage))
                  (composite : ImageComposite) : M ImageComposite :=
  match files with
  | [] => ret composite
  | (filename, img) :: rest =>
      emit (open_image filename) ;;
      let (source, bbox) := reproject opt lo_value hi_value filename img in
      assemble opt lo_value hi_value total_resolution xresolution rest
        (insert_source total_resolution xresolution composite source bbox)
  end.

(* ------------------------------------------------------------------ *)
(** ** The quad-tree configuration *)

(** [BBox2 ll_bbox(-180.0 + (360.0*min.x)/xresolution,
                   180.0 - (360.0*max.y)/yresolution,
                   (360.0*width)/xresolution,
                   (360.0*height)/yresolution)] *)
Definition ll_bbox (total_bbox : BBox2i) (xresolution yresolution : Z)
  : BBox2 :=
  BBox2_xywh
    (PrimFloat.add (double_of_int (-180))
       (PrimFloat.div
          (PrimFloat.mul (double_of_int 360) (double_of_int (min_x total_bbox)))
          (double_of_int xresolution)))
    (PrimFloat.sub (double_of_int 180)
       (PrimFloat.div
          (PrimFloat.mul (double_of_int 360) (double_of_int (max_y total_bbox)))
          (double_of_int yresolution)))
    (PrimFloat.div
       (PrimFloat.mul (double_of_int 360) (double_of_int (width total_bbox)))
       (double_of_int xresolution))
    (PrimFloat.div
       (PrimFloat.mul (double_of_int 360) (double_of_int (height total_bbox)))
       (double_of_int yresolution)).

(** The linear map of the specification, from pixels to degrees, evaluated
    on doubles. *)
Definition lon_double (xresolution : Z) (x : Z) : PrimFloat.float :=
  PrimFloat.add (double_of_int (-180))
    (PrimFloat.div (PrimFloat.mul (double_of_int 360) (double_of_int x))
                   (double_of_int xresolution)).
Definition lat_double (yresolution : Z) (y : Z) : PrimFloat.float :=
  PrimFloat.sub (double_of_int 180)
    (PrimFloat.div (PrimFloat.mul (double_of_int 360) (double_of_int y))
                   (double_of_int yresolution)).

(** The same map, and the four expressions of [ll_bbox], in exact
    arithmetic. *)
Definition lon_of_x (xresolution : Z) (x : Z) : Q :=
  (-180 + (360 * inject_Z x) / inject_Z xresolution)%Q.
Definition lat_of_y (yresolution : Z) (y : Z) : Q :=
  (180 - (360 * inject_Z y) / inject_Z yresolution)%Q.

Definition ll_bbox_exact (total_bbox : BBox2i) (xresolution yresolution : Z)
  : BBox2_exact :=
  BBox2_exact_xywh
    (-180 + (360 * inject_Z (min_x total_bbox)) / inject_Z xresolution)%Q
    (180 - (360 * inject_Z (max_y total_bbox)) / inject_Z yresolution)%Q
    ((360 * inject_Z (width total_bbox)) / inject_Z xresolution)%Q
    ((360 * inject_Z (height total_bbox)) / inject_Z yresolution)%Q.

(** The chain [if (opt.mode == Mode::KML) ... else if ...] that stamps the
    metadata of the output mode. *)
Definition stamp_config (opt : Options) (total_bbox : BBox2i)
                        (xresolution yresolution : Z) : list Event :=
  match mode opt with
  | Mode.KML =>
      [ set_longlat_bbox (ll_bbox total_bbox xresolution yresolution);
        set_max_lod_pixels (kml_.max_lod_pixels (kml opt));
        set_draw_order_offset (kml_.draw_order_offset (kml opt)) ]
  | Mode.CELESTIA =>
      [ set_module (Tristate.value (module_name opt)) ]
  | Mode.UNIVIEW =>
      [ set_terrain (terrain opt);
        set_module (Tristate.value (module_name opt)) ]
  | Mode.GIGAPAN =>
      [ set_longlat_bbox (ll_bbox total_bbox xresolution yresolution) ]
  | _ => []
  end.

Definition emit_all (l : list Event) : M unit := fun t => (inr tt, t ++ l).

(* ------------------------------------------------------------------ *)
(** ** [do_normal_mosaic] and [do_mosaic] *)

Definition do_normal_mosaic (opt : Options) : M unit :=
  emit (open_image (nth 0 (input_files opt) ""%string)) ;;
  emit (set_tile_size (Tristate.value (tile_size opt))) ;;
  emit (set_file_type (Tristate.value (output_file_type opt))) ;;
  when (negb (Mode.eqb (mode opt) Mode.NONE)) (emit (configure (mode opt))) ;;
  emit generate.

Definition empty_bbox_message : string :=
  "Total bbox is empty. Georeference calculation is probably incorrect.".

Definition empty_composite_message : string :=
  "Composite image is empty. Georeference calculation is probably incorrect.".

(** [do_mosaic] from [BBox2i total_bbox = composite.bbox();] to the end. *)
Definition tile_composite (opt : Options)
                          (total_resolution xresolution yresolution : Z)
                          (composite : ImageComposite) : M unit :=
  let total_bbox :=
    crop (composite_bbox composite) (BBox2i_xywh 0 0 xresolution yresolution) in
  VW_ASSERT ((0 <? width total_bbox) && (0 <? height total_bbox))
    (LogicErr empty_bbox_message) ;;
  let total_bbox :=
    if Mode.eqb (mode opt) Mode.KML
    then kml_align total_resolution xresolution yresolution total_bbox
    else total_bbox in
  when (negb (multiband opt)) (emit (set_draft_mode true)) ;;
  emit (prepare total_bbox) ;;
  VW_ASSERT ((0 <? height total_bbox) && (0 <? width total_bbox))
    (LogicErr empty_composite_message) ;;
  emit_all (stamp_config opt total_bbox xresolution yresolution) ;;
  emit (configure (mode opt)) ;;
  when (Tristate.set (tile_size opt))
    (emit (set_tile_size (Tristate.value (tile_size opt)))) ;;
  when (Tristate.set (output_file_type opt))
    (emit (set_file_type (Tristate.value (output_file_type opt)))) ;;
  let data_bbox :=
    crop (shift (composite_bbox composite) (min_x total_bbox) (min_y total_bbox))
         (BBox2i_xywh 0 0 (width total_bbox) (height total_bbox)) in
  emit (set_crop_bbox data_bbox) ;;
  emit generate.

(** [do_mosaic].  [total_resolution] and [georeferences] are what
    [load_image_georeferences] returns, one georeference per input file. *)
Definition do_mosaic (opt : Options) (lo_value hi_value : Q)
                     (total_resolution : Z)
                     (georeferences : list InputImage) : M unit :=
  if Mode.eqb (mode opt) Mode.NONE
     || Projection.is_NONE (proj_.type (proj opt))
  then do_normal_mosaic opt
  else
    xresolution <- div32 total_resolution (Tristate.value (aspect_ratio opt)) ;;
    let yresolution := total_resolution in
    composite <- assemble opt lo_value hi_value total_resolution xresolution
                   (combine (input_files opt) georeferences) [] ;;
    tile_composite opt total_resolution xresolution yresolution composite.

(* ------------------------------------------------------------------ *)
(** ** Vocabulary of the statements *)

(** A box that is not degenerate and lies inside the canvas
    [[0,0] x [xresolution,yresolution]]: what the cropped union box of the
    composite is once the emptiness assertion has passed. *)
Definition within_canvas (xresolution yresolution : Z) (b : BBox2i) : Prop :=
  (0 <= min_x b /\ min_x b < max_x b /\ max_x b <= xresolution) /\
  (0 <= min_y b /\ min_y b < max_y b /\ max_y b <= yresolution).

(** Some of the four bounds is given explicitly; all of them are. *)
Definition any_bound (o : Options) : bool :=
  Tristate.set (north o) || Tristate.set (south o)
  || Tristate.set (east o) || Tristate.set (west o).

Definition all_bounds (o : Options) : bool :=
  Tristate.set (north o) && Tristate.set (south o)
  && Tristate.set (east o) && Tristate.set (west o).

(** The constructor [Options()].  The members it does not mention are
    default-constructed: an unset [Tristate], the first enumerator, zero. *)
Definition Options_init : Options :=
  mkOptions [] ""
    (Tristate.mk "png"%string false) (Tristate.mk ""%string false)
    (Tristate.mk 0%Q false) (Tristate.mk 0%Q false)
    (Tristate.mk 256 false)
    (Tristate.mk 0%Q false) (Tristate.mk 0 false)
    (Tristate.mk 1%Q false) (Tristate.mk 0%Q false)
    (Tristate.mk 1 false)
    (Tristate.mk 0 false)
    (Tristate.mk 0%Q false)
    (Tristate.mk 0%Q false) (Tristate.mk 0%Q false)
    (Tristate.mk 0%Q false) (Tristate.mk 0%Q false)
    Channel.NONE Mode.NONE
    false false false false false false
    (kml_.mk 0 0)
    (proj_.mk Projection.DEFAULT
       (Tristate.mk 0%Q false) (Tristate.mk 0%Q false) (Tristate.mk 1%Q false)
       (Tristate.mk 0%Q false) (Tristate.mk 0%Q false) (Tristate.mk 0 false))
    (datum_.mk DatumOverride.NONE (Tristate.mk 0%Q false)).

(** Field updates used to write concrete option sets down. *)
Definition with_input_files (o : Options) (l : list string) : Options :=
  mkOptions l (output_file_name o) (output_file_type o)
    (module_name o) (nudge_x o) (nudge_y o) (tile_size o) (jpeg_quality o)
    (png_compression o) (pixel_scale o) (pixel_offset o) (aspect_ratio o)
    (global_resolution o) (nodata o) (north o) (south o) (east o) (west o)
    (channel_type o) (mode o) (multiband o) (help o) (normalize o)
    (terrain o) (manual o) (global o) (kml o) (proj o) (datum o).

Definition with_mode (o : Options) (m : Mode.t) : Options :=
  mkOptions (input_files o) (output_file_name o) (output_file_type o)
    (module_name o) (nudge_x o) (nudge_y o) (tile_size o) (jpeg_quality o)
    (png_compression o) (pixel_scale o) (pixel_offset o) (aspect_ratio o)
    (global_resolution o) (nodata o) (north o) (south o) (east o) (west o)
    (channel_type o) m (multiband o) (help o) (normalize o)
    (terrain o) (manual o) (global o) (kml o) (proj o) (datum o).

Definition with_help (o : Options) (b : bool) : Options :=
  mkOptions (input_files o) (output_file_name o) (output_file_type o)
    (module_name o) (nudge_x o) (nudge_y o) (tile_size o) (jpeg_quality o)
    (png_compression o) (pixel_scale o) (pixel_offset o) (aspect_ratio o)
    (global_resolution o) (nodata o) (north o) (south o) (east o) (west o)
    (channel_type o) (mode o) (multiband o) b (normalize o)
    (terrain o) (manual o) (global o) (kml o) (proj o) (datum o).

Definition with_global (o : Options) (b : bool) : Options :=
  mkOptions (input_files o) (output_file_name o) (output_file_type o)
    (module_name o) (nudge_x o) (nudge_y o) (tile_size o) (jpeg_quality o)
    (png_compression o) (pixel_scale o) (pixel_offset o) (aspect_ratio o)
    (global_resolution o) (nodata o) (north o) (south o) (east o) (west o)
    (channel_type o) (mode o) (multiband o) (help o) (normalize o)
    (terrain o) (manual o) b (kml o) (proj o) (datum o).

Definition with_north (o : Options) (n : Tristate.t Q) : Options :=
  mkOptions (input_files o) (output_file_name o) (output_file_type o)
    (module_name o) (nudge_x o) (nudge_y o) (tile_size o) (jpeg_quality o)
    (png_compression o) (pixel_scale o) (pixel_offset o) (aspect_ratio o)
    (global_resolution o) (nodata o) n (south o) (east o) (west o)
    (channel_type o) (mode o) (multiband o) (help o) (normalize o)
    (terrain o) (manual o) (global o) (kml o) (proj o) (datum o).

Definition with_nodata (o : Options) (n : Tristate.t Q) : Options :=
  mkOptions (input_files o) (output_file_name o) (output_file_type o)
    (module_name o) (nudge_x o) (nudge_y o) (tile_size o) (jpeg_quality o)
    (png_compression o) (pixel_scale o) (pixel_offset o) (aspect_ratio o)
    (global_resolution o) n (north o) (south o) (east o) (west o)
    (channel_type o) (mode o) (multiband o) (help o) (normalize o)
    (terrain o) (manual o) (global o) (kml o) (proj o) (datum o).

(** A 512 x 256 longitude/latitude image that declares the nodata value 7,
    with the identity for georeference. *)
Definition sample_image : InputImage :=
  mkInputImage 512 256 true 7 "+proj=longlat" (fun p => p)
               (BBox2i_xywh 0 0 512 256) (0, 0)%Q.

(** The actions of the loop of [do_mosaic]: one file opened per input. *)
Definition opened (files : list (string * InputImage)) : list Event :=
  map (fun f => open_image (fst f)) files.

(** The checks of [validate], gathered: no help request, an input, a
    radius for the sphere datum, a single input and complete bounds when
    the georeference is overridden, what the mode needs, a single input
    for a projection of none. *)
Definition acceptable (o : Options) : bool :=
  negb (help o)
  && Nat.ltb 0 (List.length (input_files o))
  && (negb (DatumOverride.eqb (datum_.type (datum o)) DatumOverride.SPHERE)
      || Tristate.set (datum_.sphere_radius (datum o)))
  && (negb (global o || any_bound o)
      || (Nat.eqb (List.length (input_files o)) 1
          && (global o || all_bounds o)))
  && match mode o with
     | Mode.NONE => Nat.eqb (List.length (input_files o)) 1
     | Mode.CELESTIA | Mode.UNIVIEW => Tristate.set (module_name o)
     | _ => true
     end
  && (negb (Projection.is_NONE (proj_.type (proj o)))
      || Nat.eqb (List.length (input_files o)) 1).

(** The options [validate] leaves behind when every check passes. *)
Definition validated (o : Options) : Options :=
  let o1 := default_output_file_name o in
  if global o || any_bound o
  then set_manual
         (if global o then set_bounds o1 90 (-90) 180 (-180) else o1) true
  else o1.

(** The defaults [validate] sets on the JPEG and PNG writers. *)
Definition validate_events (o : Options) : list Event :=
  (if Tristate.set (jpeg_quality o)
   then [set_default_quality (Tristate.value (jpeg_quality o))] else [])
  ++ (if Tristate.set (png_compression o)
      then [set_default_compression_level
              (Tristate.value (png_compression o))] else []).

(** The actions of [do_normal_mosaic] on the file [f]. *)
Definition normal_mosaic_events (opt : Options) (f : string) : list Event :=
  [open_image f;
   set_tile_size (Tristate.value (tile_size opt));
   set_file_type (Tristate.value (output_file_type opt))]
  ++ (if Mode.eqb (mode opt) Mode.NONE then [] else [configure (mode opt)])
  ++ [generate].

(** The actions of [do_mosaic] from the preparation of the composite on
    the box [aligned] to the generation of the tiles. *)
Definition tile_events (opt : Options) (composite : ImageComposite)
                       (aligned : BBox2i) (xresolution yresolution : Z)
  : list Event :=
  (if multiband opt then [] else [set_draft_mode true])
  ++ [prepare aligned]
  ++ stamp_config opt aligned xresolution yresolution
  ++ [configure (mode opt)]
  ++ (if Tristate.set (tile_size opt)
      then [set_tile_size (Tristate.value (tile_size opt))] else [])
  ++ (if Tristate.set (output_file_type opt)
      then [set_file_type (Tristate.value (output_file_type opt))] else [])
  ++ [set_crop_bbox
        (crop (shift (composite_bbox composite) (min_x aligned) (min_y aligned))
              (BBox2i_xywh 0 0 (width aligned) (height aligned)));
      generate].

(** One input file with the [global] flag. *)
Definition one_global : Options :=
  with_global (with_input_files Options_init ["dir/a.tif"%string]) true.

(** An insertion made for one of the files: the view has the size of the
    placement box of the file and sits at its height. *)
Definition placed_from (files : list (string * InputImage)) (i : Insertion)
  : Prop :=
  exists f img,
    In (f, img) files /\
    ins_y i = min_y (forward_bbox img) /\
    view_cols (ins_image i) = width (forward_bbox img) /\
    view_rows (ins_image i) = height (forward_bbox img).

(** One input file in Gigapan mode. *)
Definition gigapan_one : Options :=
  with_mode (with_input_files Options_init ["a.tif"%string]) Mode.GIGAPAN.

(* ================================================================== *)
(** * Properties *)

(* ------------------------------------------------------------------ *)
(** ** Integer arithmetic *)

Lemma wrap_in_range z : Int32.in_range z -> Int32.wrap z = z.
Proof.
  unfold Int32.in_range, Int32.wrap, Int32.min_int, Int32.max_int. intros H.
  rewrite Z.mod_small; lia.
Qed.

Lemma shl_2_pow k : 0 <= k -> Z.shiftl 2 k = 2 ^ (k + 1).
Proof.
  intros Hk. rewrite Z.shiftl_mul_pow2 by lia.
  rewrite Z.pow_add_r by lia. lia.
Qed.

(* m in [2^k, 2^(k+1)) *)
Lemma ilog2_bounds m : 0 < m -> 2 ^ ilog2 m <= m < 2 ^ (ilog2 m + 1).
Proof.
  intros Hm. unfold ilog2. replace (Z.log2 m + 1) with (Z.succ (Z.log2 m)) by lia.
  apply Z.log2_spec; lia.
Qed.

Lemma ilog2_lt_30 m : 0 < m < 2 ^ 30 -> 0 <= ilog2 m < 30.
Proof.
  intros [H0 H1]. unfold ilog2. split. apply Z.log2_nonneg.
  apply Z.log2_lt_pow2; lia.
Qed.

Lemma pow2_le_30 k : 0 <= k < 30 -> 2 <= 2 ^ (k + 1) <= 2 ^ 30.
Proof.
  intros Hk. split.
  - change 2 with (2 ^ 1) at 1. apply Z.pow_le_mono_r; lia.
  - apply Z.pow_le_mono_r; lia.
Qed.

Lemma kml_dim_eq tr b :
  0 < Z.max (width b) (height b) < 2 ^ 30 ->
  kml_dim tr b = Z.min (2 ^ (ilog2 (Z.max (width b) (height b)) + 1)) tr.
Proof.
  intros Hm. unfold kml_dim, Int32.shl.
  pose proof (ilog2_lt_30 _ Hm) as Hk.
  pose proof (pow2_le_30 _ Hk) as Hp.
  rewrite shl_2_pow by lia.
  rewrite wrap_in_range by (unfold Int32.in_range, Int32.min_int, Int32.max_int; lia).
  destruct (Z.ltb_spec tr (2 ^ (ilog2 (Z.max (width b) (height b)) + 1))); lia.
Qed.

(* ------------------------------------------------------------------ *)
(** ** The KML aligner *)

Ltac bbox_simpl :=
  cbn [BBox2i_xywh set_min_x set_max_x set_min_y set_max_y
       min_x min_y max_x max_y].

Ltac int_range := unfold Int32.in_range, Int32.min_int, Int32.max_int; lia.

Lemma snap_spec x d :
  0 <= x < 2 ^ 31 -> 0 < d ->
  exists q, 0 <= q /\ Int32.mul (Int32.quot x d) d = q * d /\
            q * d <= x < q * d + d.
Proof.
  intros Hx Hd. exists (x / d).
  assert (Hq : 0 <= x / d) by (apply Z.div_pos; lia).
  assert (Hm : x / d * d <= x < x / d * d + d).
  { pose proof (Z.div_mod x d ltac:(lia)) as E.
    pose proof (Z.mod_pos_bound x d Hd) as B. lia. }
  unfold Int32.mul, Int32.quot.
  rewrite Z.quot_div_nonneg by lia.
  rewrite (wrap_in_range (x / d)) by (int_range; nia).
  rewrite wrap_in_range by int_range.
  repeat split; lia.
Qed.

Section Aligner.

Variables tr xres yres : Z.
Variable b : BBox2i.
Hypothesis Htr : tr < 2 ^ 30.
Hypothesis Hxres : xres <= tr.
Hypothesis Hyres : yres <= tr.
Hypothesis Hx : 0 <= min_x b /\ min_x b < max_x b /\ max_x b <= xres.
Hypothesis Hy : 0 <= min_y b /\ min_y b < max_y b /\ max_y b <= yres.

Let m := Z.max (width b) (height b).
Let d := kml_dim tr b.

Lemma aligner_m_range : 0 < m < 2 ^ 30 /\ m <= tr.
Proof. unfold m, width, height. lia. Qed.

Lemma aligner_dim :
  (d = tr \/ (d = 2 ^ (ilog2 m + 1) /\ d < tr /\ d <= 2 ^ 29)) /\ m <= d /\ 0 < d.
Proof.
  destruct aligner_m_range as [Hm Hmt].
  unfold d. rewrite kml_dim_eq by exact Hm. fold m.
  pose proof (ilog2_bounds m ltac:(lia)) as Hb.
  pose proof (ilog2_lt_30 m Hm) as Hk.
  pose proof (pow2_le_30 _ Hk) as Hp.
  split; [|lia].
  destruct (Z.eq_dec (Z.min (2 ^ (ilog2 m + 1)) tr) tr) as [E|E]; [left; exact E|right].
  assert (Hlt : 2 ^ (ilog2 m + 1) < 2 ^ 30) by lia.
  apply Z.pow_lt_mono_r_iff in Hlt; [|lia|lia].
  assert (Hle : 2 ^ (ilog2 m + 1) <= 2 ^ 29) by (apply Z.pow_le_mono_r; lia).
  lia.
Qed.

(** The shape of the aligned box: a square of side [d] or [2 * d] around
    [b]; the longer side only arises when [d] was not capped. *)
Lemma aligner_shape :
  let out := kml_align tr xres yres b in
  contains out b = true /\
  ((width out = d /\ height out = d) \/
   (width out = 2 * d /\ height out = 2 * d /\
    d = 2 ^ (ilog2 m + 1) /\ d < tr)).
Proof.
  destruct aligner_dim as [Hd [Hmd Hd0]].
  assert (Hw : width b <= d /\ height b <= d) by (unfold m in Hmd; lia).
  destruct (snap_spec (min_x b) d ltac:(lia) Hd0) as [qx [Hqx [Ex Bx]]].
  destruct (snap_spec (min_y b) d ltac:(lia) Hd0) as [qy [Hqy [Ey By]]].
  assert (Hsx : 0 <= qx * d) by nia.
  assert (Hsy : 0 <= qy * d) by nia.
  cbv zeta. unfold kml_align. fold d. rewrite Ex, Ey.
  unfold width, height in Hw.
  destruct (contains (BBox2i_xywh (qx * d) (qy * d) d d) b) eqn:Hc; cbn [negb].
  - split; [exact Hc|]. left.
    unfold width, height; cbn [BBox2i_xywh max_x max_y min_x min_y]. lia.
  - assert (Hnt : d = 2 ^ (ilog2 m + 1) /\ d < tr /\ d <= 2 ^ 29).
    { destruct Hd as [E|E]; [|exact E]. exfalso.
      assert (qx = 0) by nia. assert (qy = 0) by nia. subst qx qy.
      unfold contains in Hc; cbn [BBox2i_xywh max_x max_y min_x min_y] in Hc.
      repeat rewrite andb_false_iff in Hc.
      repeat rewrite Z.leb_gt in Hc. lia. }
    destruct Hnt as [Ed [Hlt H29]].
    unfold Int32.sub, Int32.add. bbox_simpl.
    destruct (Z.eqb_spec (qx * d + d) xres) as [Hex|Hex]; bbox_simpl;
      destruct (Z.eqb_spec (qy * d + d) yres) as [Hey|Hey]; bbox_simpl;
      repeat (rewrite wrap_in_range by int_range);
      (split; [unfold contains; bbox_simpl;
               repeat rewrite andb_true_iff; repeat rewrite Z.leb_le; lia
              | right; split; [|split; [|split; [exact Ed|exact Hlt]]];
                unfold width, height; bbox_simpl; lia]).
Qed.

End Aligner.

Lemma quot_le_self tr a : 0 < tr -> 0 < Z.quot tr a -> Z.quot tr a <= tr.
Proof.
  intros Htr Hq.
  assert (Ha : 0 < a).
  { destruct (Z.lt_trichotomy a 0) as [H|[H|H]]; [|subst; rewrite Z.quot_0_r_ext in Hq by reflexivity; lia | exact H].
    exfalso. pose proof (Z.quot_opp_r tr (- a) ltac:(lia)) as E.
    rewrite Z.opp_involutive in E.
    pose proof (Z.quot_pos tr (- a) ltac:(lia) ltac:(lia)). lia. }
  rewrite Z.quot_div_nonneg by lia.
  apply Z.div_le_upper_bound; nia.
Qed.

Lemma canvas_width_le tr a b :
  within_canvas (Z.quot tr a) tr b -> 0 < tr /\ Z.quot tr a <= tr.
Proof.
  intros [Hx Hy]. assert (0 < tr) by lia. split; [assumption|].
  apply quot_le_self; lia.
Qed.

Lemma is_pow2_pow k : 0 <= k -> is_pow2 (2 ^ k) = true.
Proof.
  intros Hk. unfold is_pow2.
  rewrite Z.log2_pow2 by exact Hk.
  rewrite Z.eqb_refl, andb_true_r. apply Z.ltb_lt. apply Z.pow_pos_nonneg; lia.
Qed.

Lemma is_pow2_spec z : is_pow2 z = true -> 0 <= Z.log2 z /\ z = 2 ^ Z.log2 z.
Proof.
  unfold is_pow2. rewrite andb_true_iff, Z.eqb_eq. intros [_ E].
  split; [apply Z.log2_nonneg | exact E].
Qed.

(** A square box of side [total_resolution] inside the canvas is the whole
    canvas, and the aligner leaves it alone. *)
Lemma kml_align_full_canvas tr xres b :
  tr < 2 ^ 30 -> xres <= tr -> within_canvas xres tr b ->
  width b = tr -> height b = tr ->
  kml_align tr xres tr b = b.
Proof.
  intros Htr Hxres [Hx Hy] Hw Hh.
  destruct (aligner_dim tr xres tr b Htr Hxres (Z.le_refl _) Hx Hy) as [_ [Hmd Hd0]].
  assert (Hd : kml_dim tr b = tr).
  { rewrite kml_dim_eq in * by (rewrite Hw, Hh; lia).
    rewrite Hw, Hh, Z.max_id in *. lia. }
  unfold width, height in Hw, Hh.
  assert (Hmx : min_x b = 0) by lia. assert (Hmy : min_y b = 0) by lia.
  destruct (snap_spec (min_x b) tr ltac:(lia) ltac:(lia)) as [qx [Hqx [Ex Bx]]].
  destruct (snap_spec (min_y b) tr ltac:(lia) ltac:(lia)) as [qy [Hqy [Ey By]]].
  assert (qx = 0) by nia. assert (qy = 0) by nia. subst qx qy.
  unfold kml_align. rewrite Hd, Ex, Ey.
  destruct b as [x0 y0 x1 y1]; cbn [min_x min_y max_x max_y] in *. subst x0 y0.
  assert (x1 = tr) by lia. assert (y1 = tr) by lia. subst x1 y1.
  unfold BBox2i_xywh, contains; cbn [min_x min_y max_x max_y].
  replace (0 * tr) with 0 by lia. rewrite !Z.add_0_l.
  rewrite !Z.leb_refl. reflexivity.
Qed.

(** C1, as amended.  With [total_resolution < 2^30], for every box that is
    not degenerate and lies inside the canvas, the KML aligner returns a
    square that contains the box and whose side is [dim] or [2 * dim];
    when [total_resolution] is a power of two the side is a power of two
    no larger than it; and an aligned box of side [total_resolution] that
    lies inside the canvas is returned unchanged by a second run. *)
Theorem kml_align_square_around (tr aspect : Z) (b : BBox2i) :
  tr < 2 ^ 30 ->
  within_canvas (Z.quot tr aspect) tr b ->
  let out := kml_align tr (Z.quot tr aspect) tr b in
  width out = height out /\
  contains out b = true /\
  (width out = kml_dim tr b \/ width out = 2 * kml_dim tr b) /\
  (is_pow2 tr = true -> is_pow2 (width out) = true /\ width out <= tr) /\
  (width out = tr -> within_canvas (Z.quot tr aspect) tr out ->
   kml_align tr (Z.quot tr aspect) tr out = out).
Proof.
  intros Htr Hc out.
  destruct (canvas_width_le _ _ _ Hc) as [Htr0 Hxres].
  pose proof Hc as [Hx Hy].
  pose proof (aligner_shape tr _ tr b Htr Hxres (Z.le_refl _) Hx Hy) as [Hcont Hshape].
  fold out in Hcont, Hshape.
  pose proof (aligner_dim tr _ tr b Htr Hxres (Z.le_refl _) Hx Hy) as [Hd [Hmd Hd0]].
  destruct (aligner_m_range tr _ tr b Htr Hxres (Z.le_refl _) Hx Hy) as [Hm Hmt].
  pose proof (ilog2_lt_30 _ Hm) as Hk.
  assert (Hsq : width out = height out) by (destruct Hshape as [[? ?]|[? [? _]]]; lia).
  repeat split.
  - exact Hsq.
  - exact Hcont.
  - destruct Hshape as [[? ?]|[? [? _]]]; [left|right]; assumption.
  - destruct (is_pow2_spec _ H) as [Hj Ej].
    destruct Hshape as [[Ew _]|[Ew [_ [Ed Hlt]]]]; rewrite Ew.
    + destruct Hd as [E|[E _]]; rewrite E; [exact H|apply is_pow2_pow; lia].
    + rewrite Ed. replace (2 * 2 ^ (ilog2 (Z.max (width b) (height b)) + 1))
        with (2 ^ (ilog2 (Z.max (width b) (height b)) + 2))
        by (rewrite !Z.pow_add_r by lia; lia).
      apply is_pow2_pow; lia.
  - destruct (is_pow2_spec _ H) as [Hj Ej].
    destruct Hshape as [[Ew _]|[Ew [_ [Ed Hlt]]]]; rewrite Ew.
    + destruct Hd as [E|[E [? _]]]; lia.
    + rewrite Ed in *. rewrite Ej in Hlt.
      apply Z.pow_lt_mono_r_iff in Hlt; [|lia|lia].
      assert (Hle : 2 ^ (ilog2 (Z.max (width b) (height b)) + 2)
                    <= 2 ^ Z.log2 tr) by (apply Z.pow_le_mono_r; lia).
      rewrite !Z.pow_add_r in * by lia. lia.
  - intros Hw Hin. apply kml_align_full_canvas; try assumption. lia.
Qed.

Lemma kml_align_square_around_witness :
  let b := BBox2i_xywh 100 200 300 150 in
  let out := kml_align 1024 (Z.quot 1024 1) 1024 b in
  width out = height out /\ contains out b = true.
Proof.
  intros b out.
  assert (Hc : within_canvas (Z.quot 1024 1) 1024 b)
    by (unfold within_canvas; cbn; lia).
  destruct (kml_align_square_around 1024 1 b ltac:(lia) Hc) as [H1 [H2 _]].
  split; assumption.
Defined.

(** Against C1 as stated: the 4 x 4 box at the origin of a 1024 canvas is
    aligned to the 8 x 8 square, and aligning that square again gives the
    16 x 16 square. *)
Lemma kml_align_not_idempotent :
  let b := BBox2i_xywh 0 0 4 4 in
  let out := kml_align 1024 (Z.quot 1024 1) 1024 b in
  within_canvas (Z.quot 1024 1) 1024 b /\
  out = BBox2i_xywh 0 0 8 8 /\
  kml_align 1024 (Z.quot 1024 1) 1024 out = BBox2i_xywh 0 0 16 16 /\
  kml_align 1024 (Z.quot 1024 1) 1024 out <> out.
Proof.
  cbv zeta. split; [unfold within_canvas; cbn; lia|].
  split; [vm_compute; reflexivity|].
  split; [vm_compute; reflexivity|].
  vm_compute. discriminate.
Qed.

(** The side of the aligned square follows [total_resolution] when the
    latter is not a power of two: the cap 1000 is the side, and the
    doubled side 8 exceeds the resolution 6. *)
Remark kml_align_resolution_not_power_of_two :
  kml_align 1000 1000 1000 (BBox2i_xywh 0 0 600 600) = BBox2i_xywh 0 0 1000 1000
  /\ is_pow2 1000 = false
  /\ kml_align 6 6 6 (BBox2i_xywh 3 0 2 1) = BBox2i_xywh 0 0 8 8.
Proof. repeat split. Qed.

(** C2, as amended.  For [0 < max(width, height) < 2^30], [dim] is the
    smallest power of two strictly greater than [max(width, height)],
    capped at [total_resolution]; when [max(width, height)] is itself a
    power of two, [dim] is its double, capped. *)
Theorem kml_dim_next_power_of_two (tr : Z) (b : BBox2i) :
  let m := Z.max (width b) (height b) in
  0 < m < 2 ^ 30 ->
  exists k, 0 <= k /\
    kml_dim tr b = Z.min (2 ^ k) tr /\
    m < 2 ^ k /\
    (forall j, 0 <= j -> m < 2 ^ j -> 2 ^ k <= 2 ^ j) /\
    (is_pow2 m = true -> kml_dim tr b = Z.min (2 * m) tr).
Proof.
  intros m Hm. exists (ilog2 m + 1).
  pose proof (ilog2_lt_30 m Hm) as Hk.
  pose proof (ilog2_bounds m ltac:(lia)) as Hb.
  split; [lia|]. split; [apply kml_dim_eq; exact Hm|].
  split; [lia|]. split.
  - intros j Hj Hlt. apply Z.pow_le_mono_r; [lia|].
    assert (ilog2 m < j); [|lia].
    apply (Z.pow_lt_mono_r_iff 2); lia.
  - intros Hp. rewrite kml_dim_eq by exact Hm. fold m.
    destruct (is_pow2_spec _ Hp) as [_ E]. unfold ilog2.
    rewrite Z.pow_add_r by (try apply Z.log2_nonneg; lia).
    rewrite <- E. f_equal. lia.
Qed.

Lemma kml_dim_next_power_of_two_witness :
  exists k, 0 <= k /\ kml_dim 1024 (BBox2i_xywh 0 0 300 150) = Z.min (2 ^ k) 1024.
Proof.
  destruct (kml_dim_next_power_of_two 1024 (BBox2i_xywh 0 0 300 150))
    as [k [Hk [E _]]].
  - cbn. lia.
  - exists k. split; [exact Hk|exact E].
Defined.

(** Against C2 as stated: for a 4 x 4 box and resolution 1024 the
    smallest power of two that is at least 4 is 4, and [dim] is 8. *)
Lemma kml_dim_power_of_two_doubles :
  let b := BBox2i_xywh 0 0 4 4 in
  Z.max (width b) (height b) = 4 /\ is_pow2 4 = true /\ 4 <= 1024 /\
  spec_dim 1024 4 = 4 /\
  kml_dim 1024 b = 8 /\
  kml_dim 1024 b <> spec_dim 1024 (Z.max (width b) (height b)).
Proof.
  cbv zeta. repeat split; try (vm_compute; congruence).
Qed.

(* ------------------------------------------------------------------ *)
(** ** Insertion, global coverage *)




Lemma Qlt_bool_iff x y : Qlt_bool x y = true <-> (x < y)%Q.
Proof.
  unfold Qlt_bool. rewrite negb_true_iff.
  split.
  - intros H. apply Qnot_le_lt. intros Hle.
    apply Qle_bool_iff in Hle. congruence.
  - intros H. destruct (Qle_bool y x) eqn:E; [|reflexivity].
    apply Qle_bool_iff in E. exfalso. apply (Qlt_not_le _ _ H E).
Qed.

Lemma global_test_spec p xl xr yt yb c r :
  global_test p xl xr yt yb c r = true <->
  trim_copy p = "+proj=longlat"%string /\
  (Qabs xl < 1)%Q /\ (Qabs (xr - inject_Z c) < 1)%Q /\
  (Qabs yt < 1)%Q /\ (Qabs (yb - inject_Z r) < 1)%Q.
Proof.
  unfold global_test. rewrite !andb_true_iff, !Qlt_bool_iff, String.eqb_eq.
  tauto.
Qed.

(** Moving a point that is within one pixel of a target by two pixels or
    more takes it at least one pixel away. *)
Lemma Qabs_far x d e :
  (Qabs (x - e) < 1)%Q -> (2 <= Qabs d)%Q -> ~ (Qabs (x + d - e) < 1)%Q.
Proof.
  intros Hx Hd Hn.
  apply Qabs_Qlt_condition in Hx. apply Qabs_Qlt_condition in Hn.
  revert Hd. apply Qabs_case; intros; lra.
Qed.

Lemma Qabs_far0 x d :
  (Qabs x < 1)%Q -> (2 <= Qabs d)%Q -> ~ (Qabs (x + d) < 1)%Q.
Proof.
  intros Hx Hd Hn.
  apply Qabs_Qlt_condition in Hx. apply Qabs_Qlt_condition in Hn.
  revert Hd. apply Qabs_case; intros; lra.
Qed.

(** C4, as amended.  An input is detected as global exactly when its
    trimmed projection string is [+proj=longlat] and the pixels of
    (-180,0), (180,0), (0,90) and (0,-90) are strictly within one pixel of
    the left, right, top and bottom edge; moving one of the four mapped
    coordinates of a global input by two pixels or more makes the test
    false. *)
Theorem global_test_exact (img : InputImage) (p : string)
    (xl xr yt yb : Q) (c r : Z) :
  (is_global img = true <->
   trim_copy (proj4_str img) = "+proj=longlat"%string /\
   (Qabs (fst (lonlat_to_pixel img (-180, 0)%Q)) < 1)%Q /\
   (Qabs (fst (lonlat_to_pixel img (180, 0)%Q) - inject_Z (cols img)) < 1)%Q /\
   (Qabs (snd (lonlat_to_pixel img (0, 90)%Q)) < 1)%Q /\
   (Qabs (snd (lonlat_to_pixel img (0, -90)%Q) - inject_Z (rows img)) < 1)%Q) /\
  (forall d : Q, (2 <= Qabs d)%Q ->
   global_test p xl xr yt yb c r = true ->
   global_test p (xl + d) xr yt yb c r = false /\
   global_test p xl (xr + d) yt yb c r = false /\
   global_test p xl xr (yt + d) yb c r = false /\
   global_test p xl xr yt (yb + d) c r = false).
Proof.
  split; [apply global_test_spec|].
  intros d Hd Hg. apply global_test_spec in Hg.
  destruct Hg as [Hp [H1 [H2 [H3 H4]]]].
  repeat split; apply not_true_is_false; intros Hn;
    apply global_test_spec in Hn; destruct Hn as [_ [N1 [N2 [N3 N4]]]].
  - exact (Qabs_far0 _ _ H1 Hd N1).
  - exact (Qabs_far _ _ _ H2 Hd N2).
  - exact (Qabs_far0 _ _ H3 Hd N3).
  - exact (Qabs_far _ _ _ H4 Hd N4).
Qed.

Lemma global_test_exact_witness :
  global_test "+proj=longlat" ((3 # 4) + 2) 100 0 50 100 50 = false.
Proof.
  destruct (global_test_exact sample_image "+proj=longlat" (3 # 4) 100 0 50 100 50)
    as [_ H].
  destruct (H 2%Q) as [H1 _].
  - vm_compute. discriminate.
  - vm_compute. reflexivity.
  - exact H1.
Defined.

(** Against C4 as stated: a left coordinate at 3/4 of a pixel moved by
    3/2 pixels, more than one, lands at -3/4 and the input is still
    detected as global. *)
Lemma global_test_perturbed_still_global :
  global_test "+proj=longlat" (3 # 4) 100 0 50 100 50 = true /\
  (1 < Qabs (- (3 # 2)))%Q /\
  global_test "+proj=longlat" ((3 # 4) + - (3 # 2)) 100 0 50 100 50 = true.
Proof.
  repeat split.
Qed.

(* ------------------------------------------------------------------ *)
(** ** Nodata masking, longitude/latitude box *)

Lemma masked_values_reproject opt lo hi file img :
  masked_values (fst (reproject opt lo hi file img)) =
  masked_values (apply_nodata opt img (DiskImageView file (cols img) (rows img))).
Proof.
  unfold reproject.
  destruct (is_global img), (origin_fault img), (normalize opt),
    (Tristate.set (pixel_scale opt) || Tristate.set (pixel_offset opt));
    reflexivity.
Qed.

Lemma nodata_stage_reproject opt lo hi file img :
  nodata_stage (fst (reproject opt lo hi file img)) =
  nodata_stage (apply_nodata opt img (DiskImageView file (cols img) (rows img))) /\
  alpha_conversions (fst (reproject opt lo hi file img)) =
  alpha_conversions (apply_nodata opt img (DiskImageView file (cols img) (rows img))).
Proof.
  unfold reproject.
  destruct (is_global img), (origin_fault img), (normalize opt),
    (Tristate.set (pixel_scale opt) || Tristate.set (pixel_offset opt));
    split; reflexivity.
Qed.

(** C6.  Under the resampling steps, the source inserted for an input is
    the disk image masked on the configured nodata value when one is
    configured, whatever the file declares, and otherwise on the value the
    file declares: exactly the pixels equal to that value are transparent
    and all others opaque.  When neither value exists the source is the
    disk image itself, with no mask and no conversion to alpha. *)
Theorem nodata_precedence (V : Type) (equals : V -> ChannelValue -> bool)
    (disk : string -> Z -> Z -> Pixel V)
    (opt : Options) (lo hi : Q) (file : string) (img : InputImage) :
  let source := fst (reproject opt lo hi file img) in
  let image := DiskImageView file (cols img) (rows img) in
  let masked_with n :=
    nodata_stage source =
      mask_to_alpha (create_mask (pixel_cast_without_alpha image) (ChannelT n)) /\
    masked_values source = [ChannelT n] /\
    alpha_conversions source = 1%nat /\
    exists r, pixels V equals disk (nodata_stage source) = Some r /\
              made_transparent V equals (disk file) r (ChannelT n) in
  (Tristate.set (nodata opt) = true ->
   masked_with (Tristate.value (nodata opt))) /\
  (Tristate.set (nodata opt) = false -> has_nodata_read img = true ->
   masked_with (nodata_read img)) /\
  (Tristate.set (nodata opt) = false -> has_nodata_read img = false ->
   nodata_stage source = image /\
   masked_values source = [] /\
   alpha_conversions source = 0%nat /\
   pixels V equals disk (nodata_stage source) = Some (disk file)).
Proof.
  cbv zeta.
  destruct (nodata_stage_reproject opt lo hi file img) as [-> ->].
  rewrite masked_values_reproject. unfold apply_nodata.
  split; [|split].
  - intros ->. cbn. repeat split. eexists. split; [reflexivity|].
    intros x y. split; reflexivity.
  - intros -> ->. cbn. repeat split. eexists. split; [reflexivity|].
    intros x y. split; reflexivity.
  - intros -> ->. cbn. repeat split.
Qed.

Lemma nodata_precedence_witness :
  let equals (v : Q) (n : ChannelValue) :=
    match n with ChannelT q => Qeq_bool v q end in
  let disk (f : string) (x y : Z) := mkPixel (inject_Z x) true true in
  exists r,
    pixels Q equals disk
      (nodata_stage
         (fst (reproject (with_nodata Options_init (Tristate.mk 3%Q true)) 0 1
                         "a.tif" sample_image))) = Some r /\
    px_opaque (r 3 0) = false /\ px_opaque (r 7 0) = true.
Proof.
  intros equals disk.
  destruct (nodata_precedence Q equals disk
              (with_nodata Options_init (Tristate.mk 3%Q true)) 0 1
              "a.tif" sample_image) as [H _].
  destruct (H eq_refl) as [_ [_ [_ [r [Hr Ht]]]]].
  exists r. split; [exact Hr|]. split.
  - rewrite (proj2 (Ht 3 0)). reflexivity.
  - rewrite (proj2 (Ht 7 0)). reflexivity.
Defined.

(* ------------------------------------------------------------------ *)
(** ** Validation *)

Lemma default_name_same o :
  input_files (default_output_file_name o) = input_files o /\ global (default_output_file_name o) = global o /\
  north (default_output_file_name o) = north o /\ south (default_output_file_name o) = south o /\
  east (default_output_file_name o) = east o /\ west (default_output_file_name o) = west o /\
  help (default_output_file_name o) = help o /\ manual (default_output_file_name o) = manual o.
Proof. unfold default_output_file_name. destruct (String.eqb _ _); repeat split. Qed.

Ltac run :=
  unfold override_georeference, bind, VW_ASSERT, when, ret, throw, emit.

Lemma override_partial o t :
  global o = false -> any_bound o = true -> all_bounds o = false ->
  exists msg, override_georeference o t = (inl (Usage msg), t).
Proof.
  unfold any_bound, all_bounds. intros Hg Ha Hn. run.
  rewrite Hg. cbn [orb]. rewrite Ha, Hn.
  destruct (Nat.eqb _ 1); eexists; reflexivity.
Qed.

Lemma override_multiple o t :
  global o || any_bound o = true -> (1 < List.length (input_files o))%nat ->
  override_georeference o t =
  (inl (Usage "Cannot override georeference information on multiple images"), t).
Proof.
  unfold any_bound. intros Ha Hl. run.
  rewrite !orb_assoc in Ha. rewrite Ha.
  destruct (Nat.eqb_spec (List.length (input_files o)) 1); [lia|reflexivity].
Qed.

Lemma validate_override_fails o t e :
  override_georeference (default_output_file_name o) t = (inl (Usage e), t) ->
  exists msg, validate o t = (inl (Usage msg), t).
Proof.
  intros H. unfold validate. fold (default_output_file_name o).
  unfold bind at 1. unfold VW_ASSERT at 1.
  destruct (help o); cbn [negb]; [eexists; reflexivity|]. cbv beta iota. unfold ret at 1.
  unfold bind at 1. unfold VW_ASSERT at 1.
  destruct (Nat.ltb 0 _); [|eexists; reflexivity]. unfold ret at 1. cbv beta iota.
  unfold bind at 1. unfold when at 1.
  destruct (DatumOverride.eqb _ _).
  - unfold VW_ASSERT at 1.
    destruct (Tristate.set _); [|eexists; reflexivity].
    unfold ret at 1. cbv beta iota. unfold bind at 1. rewrite H.
    eexists; reflexivity.
  - unfold ret at 1. cbv beta iota. unfold bind at 1. rewrite H.
    eexists; reflexivity.
Qed.

(** C8.  Validation throws when some but not all of the four bounds are
    given and [global] is not set, and when the georeference is overridden
    (by [global] or by a bound) for more than one input file. *)
Theorem validate_bounds_override (o : Options) (t : list Event) :
  (global o = false -> any_bound o = true -> all_bounds o = false ->
   exists msg, validate o t = (inl (Usage msg), t)) /\
  (global o || any_bound o = true -> (1 < List.length (input_files o))%nat ->
   exists msg, validate o t = (inl (Usage msg), t)).
Proof.
  destruct (default_name_same o) as [Ei [Eg [En [Es [Ee [Ew _]]]]]].
  split.
  - intros Hg Ha Hn.
    destruct (override_partial (default_output_file_name o) t) as [msg E].
    + congruence.
    + unfold any_bound in *. congruence.
    + unfold all_bounds in *. congruence.
    + eapply validate_override_fails; exact E.
  - intros Ha Hl.
    eapply validate_override_fails. apply override_multiple.
    + unfold any_bound in *. congruence.
    + congruence.
Qed.

Lemma bind_inr {A B : Type} (m : M A) (f : A -> M B) t b t' :
  bind m f t = (inr b, t') ->
  exists a t1, m t = (inr a, t1) /\ f a t1 = (inr b, t').
Proof.
  unfold bind. destruct (m t) as [[e|a] t1]; [discriminate|].
  intros H. exists a, t1. split; [reflexivity|exact H].
Qed.

(** C9, as amended.  With no input file, validation throws a usage error
    without any action on a collaborator; unless [help] is set, its
    message is "Need at least one input image". *)
Theorem validate_no_input (o : Options) (t : list Event) :
  input_files o = [] ->
  (exists msg, validate o t = (inl (Usage msg), t)) /\
  (help o = false ->
   validate o t = (inl (Usage "Need at least one input image"), t)).
Proof.
  intros Hi. unfold validate. unfold bind at 1. unfold VW_ASSERT at 1.
  destruct (help o); cbn [negb].
  - split; [eexists; reflexivity|discriminate].
  - unfold ret at 1. cbv beta iota. unfold bind at 1. unfold VW_ASSERT at 1.
    rewrite Hi. cbn [List.length Nat.ltb Nat.leb]. unfold throw.
    split; [eexists; reflexivity|reflexivity].
Qed.

Lemma validate_no_input_witness :
  validate Options_init [] =
  (inl (Usage "Need at least one input image"), []).
Proof.
  destruct (validate_no_input Options_init []) as [_ H].
  - reflexivity.
  - apply H. reflexivity.
Defined.

(** Against C9 as stated: with [help] set and no input file, the usage
    error carries no message. *)
Lemma validate_no_input_help :
  input_files (with_help Options_init true) = [] /\
  validate (with_help Options_init true) [] = (inl (Usage ""), []) /\
  validate (with_help Options_init true) [] <>
  (inl (Usage "Need at least one input image"), []).
Proof.
  split; [reflexivity|]. split; [reflexivity|].
  vm_compute. discriminate.
Qed.

Lemma override_global o t o' t' :
  global o = true -> override_georeference o t = (inr o', t') ->
  o' = set_manual (set_bounds o 90 (-90) 180 (-180)) true /\ t' = t.
Proof.
  intros Hg. run. rewrite Hg. cbn [orb].
  destruct (Nat.eqb _ 1); [|discriminate].
  intros H. injection H as <- <-. split; reflexivity.
Qed.

Lemma validate_inr o t o' t' :
  validate o t = (inr o', t') ->
  exists t1, override_georeference (default_output_file_name o) t = (inr o', t1).
Proof.
  unfold validate. intros H.
  apply bind_inr in H. destruct H as [[] [t1 [H1 H]]].
  apply bind_inr in H. destruct H as [[] [t2 [H2 H]]].
  apply bind_inr in H. destruct H as [[] [t3 [H3 H]]].
  apply bind_inr in H. destruct H as [o2 [t4 [H4 H]]].
  apply bind_inr in H. destruct H as [[] [t5 [H5 H]]].
  apply bind_inr in H. destruct H as [[] [t6 [H6 H]]].
  apply bind_inr in H. destruct H as [[] [t7 [H7 H]]].
  apply bind_inr in H. destruct H as [[] [t8 [H8 H]]].
  unfold ret in H. injection H as <- <-.
  assert (t1 = t).
  { unfold VW_ASSERT, ret, throw in H1. destruct (negb _); [|discriminate]. congruence. }
  assert (t2 = t1).
  { unfold VW_ASSERT, ret, throw in H2. destruct (Nat.ltb _ _); [|discriminate]. congruence. }
  assert (t3 = t2).
  { unfold when, VW_ASSERT, ret, throw in H3.
    destruct (DatumOverride.eqb _ _); [destruct (Tristate.set _); [|discriminate]|]; congruence. }
  subst. exists t4. exact H4.
Qed.

(** C10.  When [global] is set, the options validation returns have the
    bounds north 90, south -90, east 180, west -180 and [manual] set;
    apart from these five fields they are the options the override block
    received. *)
Theorem validate_global_bounds (o o' : Options) (t t' : list Event) :
  global o = true ->
  validate o t = (inr o', t') ->
  Tristate.value (north o') = 90%Q /\
  Tristate.value (south o') = (-90)%Q /\
  Tristate.value (east o') = 180%Q /\
  Tristate.value (west o') = (-180)%Q /\
  manual o' = true /\
  o' = set_manual
         (set_bounds (default_output_file_name o) 90 (-90) 180 (-180)) true.
Proof.
  intros Hg Hv. destruct (validate_inr _ _ _ _ Hv) as [t1 H].
  destruct (default_name_same o) as [_ [Eg _]].
  apply override_global in H; [|congruence].
  destruct H as [-> _]. repeat split.
Qed.

Lemma validate_global_bounds_witness :
  exists o', fst (validate (with_global (with_input_files Options_init ["a.tif"%string]) true) [])
             = inr o' /\ Tristate.value (north o') = 90%Q /\ manual o' = true.
Proof.
  eexists. split; [vm_compute; reflexivity|].
  destruct (validate_global_bounds
              (with_global (with_input_files Options_init ["a.tif"%string]) true)
              _ [] _ eq_refl ltac:(vm_compute; reflexivity)) as [H1 [_ [_ [_ [H2 _]]]]].
  split; [exact H1|exact H2].
Defined.

Lemma validate_bounds_override_witness :
  exists msg,
    validate (with_north (with_input_files Options_init ["a.tif"%string])
                         (Tristate.mk 10%Q true)) [] = (inl (Usage msg), []).
Proof.
  destruct (validate_bounds_override
              (with_north (with_input_files Options_init ["a.tif"%string])
                          (Tristate.mk 10%Q true)) []) as [H _].
  apply H; reflexivity.
Defined.

(* ------------------------------------------------------------------ *)
(** ** The emptiness assertion *)

Lemma assemble_total opt lo hi tr xres files :
  forall composite t, exists composite',
    assemble opt lo hi tr xres files composite t =
    (inr composite', t ++ opened files).
Proof.
  induction files as [|[filename img] rest IH]; intros composite t.
  - exists composite. cbn. rewrite app_nil_r. reflexivity.
  - cbn [assemble]. unfold bind, emit.
    destruct (reproject opt lo hi filename img) as [source bbox].
    destruct (IH (insert_source tr xres composite source bbox)
                 (t ++ [open_image filename])) as [c' E].
    exists c'. rewrite E. cbn [opened map fst]. rewrite <- app_assoc. reflexivity.
Qed.

Lemma messages_differ : empty_bbox_message <> empty_composite_message.
Proof. vm_compute. discriminate. Qed.

(** What [tile_composite] does on either side of its first assertion. *)
Lemma tile_composite_assert opt tr xres yres composite t :
  let total_bbox :=
    crop (composite_bbox composite) (BBox2i_xywh 0 0 xres yres) in
  let aligned :=
    if Mode.eqb (mode opt) Mode.KML
    then kml_align tr xres yres total_bbox else total_bbox in
  (~ (0 < width total_bbox /\ 0 < height total_bbox) ->
   tile_composite opt tr xres yres composite t =
   (inl (LogicErr empty_bbox_message), t)) /\
  (0 < width total_bbox /\ 0 < height total_bbox ->
   fst (tile_composite opt tr xres yres composite t) <>
     inl (LogicErr empty_bbox_message) /\
   In (prepare aligned) (snd (tile_composite opt tr xres yres composite t))).
Proof.
  intros total_bbox aligned. unfold tile_composite.
  fold total_bbox. cbv zeta. fold aligned. split.
  - intros Hn. unfold bind at 1. unfold VW_ASSERT at 1.
    destruct (Z.ltb_spec 0 (width total_bbox));
      destruct (Z.ltb_spec 0 (height total_bbox)); cbn [andb];
      try reflexivity. exfalso. apply Hn. split; assumption.
  - intros [Hw Hh]. unfold bind at 1. unfold VW_ASSERT at 1.
    apply Z.ltb_lt in Hw. apply Z.ltb_lt in Hh. rewrite Hw, Hh. cbn [andb].
    unfold ret at 1. cbv beta iota.
    unfold bind, when, VW_ASSERT, ret, throw, emit, emit_all.
    destruct (multiband opt); cbn [negb];
      destruct ((0 <? height aligned) && (0 <? width aligned));
      destruct (Tristate.set (tile_size opt));
      destruct (Tristate.set (output_file_type opt)); cbn [fst snd];
      (split; [ first [ discriminate
                      | intros E; injection E as E; exact (messages_differ E) ]
              | repeat rewrite <- app_assoc; cbn [app];
                apply in_or_app; right;
                repeat (first [ left; reflexivity | right ]) ]).
Qed.

Lemma opened_only_opens files e :
  In e (opened files) -> exists f, e = open_image f.
Proof.
  unfold opened. rewrite in_map_iff. intros [x [E _]]. eexists. symmetry. exact E.
Qed.

(** C5.  Once the sources are assembled, if the union box cropped to the
    canvas has no positive width and height, [do_mosaic] throws the
    empty-box logic error having only opened the input files; otherwise
    it goes on to prepare the composite on the (aligned) box. *)
Theorem do_mosaic_empty_total_bbox (opt : Options) (lo hi : Q) (tr : Z)
    (georeferences : list InputImage) (t : list Event) :
  Mode.eqb (mode opt) Mode.NONE
    || Projection.is_NONE (proj_.type (proj opt)) = false ->
  Tristate.value (aspect_ratio opt) <> 0 ->
  ~ (tr = Int32.min_int /\ Tristate.value (aspect_ratio opt) = -1) ->
  let xres := Z.quot tr (Tristate.value (aspect_ratio opt)) in
  let files := combine (input_files opt) georeferences in
  exists composite,
    assemble opt lo hi tr xres files [] t = (inr composite, t ++ opened files) /\
    let total_bbox :=
      crop (composite_bbox composite) (BBox2i_xywh 0 0 xres tr) in
    let aligned :=
      if Mode.eqb (mode opt) Mode.KML
      then kml_align tr xres tr total_bbox else total_bbox in
    (~ (0 < width total_bbox /\ 0 < height total_bbox) ->
     do_mosaic opt lo hi tr georeferences t =
       (inl (LogicErr empty_bbox_message), t ++ opened files) /\
     ~ In generate (opened files) /\
     (forall b, ~ In (prepare b) (opened files))) /\
    (0 < width total_bbox /\ 0 < height total_bbox ->
     fst (do_mosaic opt lo hi tr georeferences t) <>
       inl (LogicErr empty_bbox_message) /\
     In (prepare aligned) (snd (do_mosaic opt lo hi tr georeferences t))).
Proof.
  intros Hmode Ha0 Ha1 xres files.
  destruct (assemble_total opt lo hi tr xres files [] t) as [composite Hc].
  exists composite. split; [exact Hc|]. cbv zeta.
  assert (Hd : do_mosaic opt lo hi tr georeferences t =
               tile_composite opt tr xres tr composite (t ++ opened files)).
  { unfold do_mosaic. rewrite Hmode. unfold bind at 1. unfold div32.
    destruct (Z.eqb_spec (Tristate.value (aspect_ratio opt)) 0) as [E|_];
      [contradiction|]. cbn [orb].
    destruct (Z.eqb_spec tr Int32.min_int) as [E1|_];
      [destruct (Z.eqb_spec (Tristate.value (aspect_ratio opt)) (-1)) as [E2|_];
       [exfalso; apply Ha1; split; assumption|]|]; cbn [andb];
      unfold ret at 1; cbv beta iota; unfold bind at 1;
      fold xres; fold files; rewrite Hc; reflexivity. }
  rewrite Hd.
  destruct (tile_composite_assert opt tr xres tr composite (t ++ opened files))
    as [Hfail Hok].
  split.
  - intros Hn. split; [apply Hfail; exact Hn|]. split.
    + intros Hin. apply opened_only_opens in Hin. destruct Hin as [f E]. discriminate.
    + intros b Hin. apply opened_only_opens in Hin. destruct Hin as [f E]. discriminate.
  - intros Hp. apply Hok. exact Hp.
Qed.

Lemma do_mosaic_empty_total_bbox_witness :
  In (prepare (BBox2i_xywh 0 0 1024 1024))
     (snd (do_mosaic (with_mode (with_input_files Options_init ["a.tif"%string]) Mode.KML)
                     0 1 1024 [sample_image] [])).
Proof.
  destruct (do_mosaic_empty_total_bbox
              (with_mode (with_input_files Options_init ["a.tif"%string]) Mode.KML)
              0 1 1024 [sample_image] [])
    as [composite [Ha [_ Hok]]].
  - reflexivity.
  - cbn. lia.
  - cbn. intros [H _]. discriminate H.
  - vm_compute in Ha. injection Ha as <-.
    apply Hok. vm_compute. split; reflexivity.
Defined.

(* ================================================================== *)
(** * Further properties *)

(* ------------------------------------------------------------------ *)
(** ** Validation as a whole *)

Lemma assert_then {A : Type} (c : bool) (e : Exception) (k : M A) t :
  (VW_ASSERT c e ;; k) t = if c then k t else (inl e, t).
Proof. unfold bind, VW_ASSERT, ret, throw. destruct c; reflexivity. Qed.

Lemma when_assert_then {A : Type} (c c' : bool) (e : Exception) (k : M A) t :
  (when c (VW_ASSERT c' e) ;; k) t =
  if negb c || c' then k t else (inl e, t).
Proof. unfold bind, when, VW_ASSERT, ret, throw. destruct c, c'; reflexivity. Qed.

Lemma when_emit_then {A : Type} (c : bool) (ev : Event) (k : M A) t :
  (when c (emit ev) ;; k) t = k (t ++ (if c then [ev] else [])).
Proof.
  unfold bind, when, emit, ret. destruct c; [reflexivity|].
  rewrite app_nil_r. reflexivity.
Qed.

Lemma ret_then {A B : Type} (a : A) (k : M B) t : (ret a ;; k) t = k t.
Proof. reflexivity. Qed.

(** The override block in one piece. *)
Lemma override_georeference_eq o t :
  override_georeference o t =
  if global o || any_bound o
  then if Nat.eqb (List.length (input_files o)) 1
       then if global o || all_bounds o
            then (inr (set_manual
                         (if global o then set_bounds o 90 (-90) 180 (-180)
                          else o) true), t)
            else (inl (Usage "If you provide one, you must provide all of: --north --south --east --west"), t)
       else (inl (Usage "Cannot override georeference information on multiple images"), t)
  else (inr o, t).
Proof.
  unfold override_georeference, any_bound, all_bounds.
  rewrite !orb_assoc.
  destruct (global o || Tristate.set (north o) || Tristate.set (south o)
            || Tristate.set (east o) || Tristate.set (west o)); [|reflexivity].
  rewrite assert_then. destruct (Nat.eqb _ 1); [|reflexivity].
  rewrite assert_then. destruct (global o || _); reflexivity.
Qed.

Lemma default_name_fields o :
  let o1 := default_output_file_name o in
  input_files o1 = input_files o /\ global o1 = global o /\
  any_bound o1 = any_bound o /\ all_bounds o1 = all_bounds o /\
  mode o1 = mode o /\ module_name o1 = module_name o /\ proj o1 = proj o /\
  jpeg_quality o1 = jpeg_quality o /\ png_compression o1 = png_compression o.
Proof.
  unfold default_output_file_name.
  destruct (String.eqb _ _); repeat split.
Qed.

Lemma validated_fields o :
  input_files (validated o) = input_files o /\
  mode (validated o) = mode o /\ module_name (validated o) = module_name o /\
  proj (validated o) = proj o /\
  jpeg_quality (validated o) = jpeg_quality o /\
  png_compression (validated o) = png_compression o.
Proof.
  unfold validated, default_output_file_name.
  destruct (global o || any_bound o), (global o), (String.eqb _ _);
    repeat split.
Qed.

(** [validate] in one piece: the closed form of its result when the checks
    pass, a usage error and an untouched trace when one fails. *)
Lemma validate_eq o t :
  exists msg,
    validate o t =
    if acceptable o
    then (inr (validated o), t ++ validate_events o)
    else (inl (Usage msg), t).
Proof.
  unfold validate, acceptable.
  rewrite assert_then.
  destruct (help o); cbn [negb andb]; [eexists; reflexivity|].
  rewrite assert_then.
  destruct (Nat.ltb 0 _); cbn [andb]; [|eexists; reflexivity].
  rewrite when_assert_then.
  destruct (negb _ || _); cbn [andb]; [|eexists; reflexivity].
  cbv zeta. unfold bind at 1. rewrite override_georeference_eq.
  destruct (default_name_fields o) as [Ei [Eg [Eany [Eall [Em [Emod [Ep [Ej Epng]]]]]]]].
  cbv zeta in *. rewrite Ei, Eg, Eany, Eall.
  pose proof (validated_fields o) as [Vi [Vm [Vmod [Vp [Vj Vpng]]]]].
  unfold validated in *. cbv zeta in *.
  destruct (global o || any_bound o); cbn [negb orb andb].
  - destruct (Nat.eqb (List.length (input_files o)) 1) eqn:El; cbn [andb];
      [|eexists; reflexivity].
    destruct (global o || all_bounds o) eqn:Ega; cbn [andb];
      [|eexists; reflexivity].
    rewrite Vi, Vm, Vmod, Vp, Vj, Vpng, El.
    destruct (mode o); first [rewrite assert_then | rewrite ret_then];
      cbn [andb];
      try (destruct (Tristate.set (module_name o)); cbn [andb];
           [|eexists; reflexivity]);
      rewrite when_assert_then, orb_true_r, !when_emit_then;
      unfold ret, validate_events; rewrite <- app_assoc; exists EmptyString; reflexivity.
  - rewrite Ei, Em, Emod, Ep, Ej, Epng.
    destruct (mode o); first [rewrite assert_then | rewrite ret_then];
      cbn [andb];
      try (destruct (Nat.eqb (List.length (input_files o)) 1) eqn:El;
           cbn [andb]; [|eexists; reflexivity]);
      try (destruct (Tristate.set (module_name o)); cbn [andb];
           [|eexists; reflexivity]);
      rewrite when_assert_then;
      (destruct (negb _ || _); [|eexists; reflexivity]);
      rewrite !when_emit_then;
      unfold ret, validate_events; rewrite <- app_assoc; exists EmptyString;
      reflexivity.
Qed.

Lemma validate_inr_inv o t o' t' :
  validate o t = (inr o', t') ->
  acceptable o = true /\ o' = validated o /\ t' = t ++ validate_events o.
Proof.
  intros H. destruct (validate_eq o t) as [msg E]. rewrite E in H.
  destruct (acceptable o); [|discriminate].
  injection H as <- <-. repeat split.
Qed.

(** [validate] returns normally exactly on the option sets that pass all
    of its checks ([acceptable]). *)
Theorem validate_accepts_iff (o : Options) (t : list Event) :
  (exists o' t', validate o t = (inr o', t')) <-> acceptable o = true.
Proof.
  split.
  - intros [o' [t' H]]. apply validate_inr_inv in H. tauto.
  - intros H. destruct (validate_eq o t) as [msg E]. rewrite H in E.
    eexists. eexists. exact E.
Qed.

(** When [validate] throws, the exception is a usage error, and neither
    the JPEG quality default nor the PNG compression default has been
    set: both are set after the last check. *)
Theorem validate_failure_is_usage (o : Options) (t t' : list Event)
    (e : Exception) :
  validate o t = (inl e, t') -> t' = t /\ exists msg, e = Usage msg.
Proof.
  intros H. destruct (validate_eq o t) as [msg E]. rewrite E in H.
  destruct (acceptable o); [discriminate|].
  injection H as <- <-. split; [reflexivity|]. exists msg. reflexivity.
Qed.

Lemma validate_failure_is_usage_witness :
  exists msg,
    LogicErr "x" <> Usage msg /\
    fst (validate (with_input_files Options_init ["a.tif"; "b.tif"]%string) []) =
    inl (Usage msg).
Proof.
  destruct (validate_failure_is_usage
              (with_input_files Options_init ["a.tif"; "b.tif"]%string) [] []
              (Usage "Non-georeferenced images cannot be composed") eq_refl)
    as [_ [msg E]].
  exists msg. split; [discriminate|]. rewrite <- E. reflexivity.
Defined.

(** When [validate] returns, the only actions performed are the default
    JPEG quality and the default PNG compression level, each set exactly
    when the option is given, in this order. *)
Theorem validate_writer_defaults (o o' : Options) (t t' : list Event) :
  validate o t = (inr o', t') ->
  t' = t ++ validate_events o /\
  (Tristate.set (jpeg_quality o) = false ->
   forall q, ~ In (set_default_quality q) (validate_events o)) /\
  (Tristate.set (png_compression o) = false ->
   forall c, ~ In (set_default_compression_level c) (validate_events o)).
Proof.
  intros H. apply validate_inr_inv in H. destruct H as [_ [_ ->]].
  split; [reflexivity|]. unfold validate_events. split.
  - intros -> q. destruct (Tristate.set (png_compression o)); cbn;
      intuition discriminate.
  - intros -> c. destruct (Tristate.set (jpeg_quality o)); cbn;
      intuition discriminate.
Qed.

(** [validate] changes no field other than the output file name, the four
    bounds and [manual]. *)
Theorem validate_keeps_fields (o o' : Options) (t t' : list Event) :
  validate o t = (inr o', t') ->
  input_files o' = input_files o /\
  output_file_type o' = output_file_type o /\
  module_name o' = module_name o /\
  nudge_x o' = nudge_x o /\ nudge_y o' = nudge_y o /\
  tile_size o' = tile_size o /\
  jpeg_quality o' = jpeg_quality o /\
  png_compression o' = png_compression o /\
  pixel_scale o' = pixel_scale o /\ pixel_offset o' = pixel_offset o /\
  aspect_ratio o' = aspect_ratio o /\
  global_resolution o' = global_resolution o /\
  nodata o' = nodata o /\
  channel_type o' = channel_type o /\ mode o' = mode o /\
  multiband o' = multiband o /\ help o' = help o /\
  normalize o' = normalize o /\ terrain o' = terrain o /\
  global o' = global o /\
  kml o' = kml o /\ proj o' = proj o /\ datum o' = datum o.
Proof.
  intros H. apply validate_inr_inv in H. destruct H as [_ [-> _]].
  unfold validated, default_output_file_name.
  destruct (global o || any_bound o), (global o) eqn:Hg, (String.eqb _ _);
    repeat split; exact Hg.
Qed.

(** After [validate] there is a first input file, and the output file
    name is the one given, or that file without its extension when none
    was given. *)
Theorem validate_output_file_name (o o' : Options) (t t' : list Event) :
  validate o t = (inr o', t') ->
  exists f rest,
    input_files o = f :: rest /\
    output_file_name o' =
    if String.eqb (output_file_name o) ""
    then replace_extension f else output_file_name o.
Proof.
  intros H. apply validate_inr_inv in H. destruct H as [Ha [-> _]].
  unfold acceptable in Ha. rewrite !andb_true_iff in Ha.
  destruct Ha as [[[[[_ Hl] _] _] _] _].
  destruct (input_files o) as [|f rest] eqn:Ei; [discriminate|].
  exists f, rest. split; [reflexivity|].
  unfold validated, default_output_file_name. rewrite Ei.
  destruct (global o || any_bound o), (global o), (String.eqb _ _);
    reflexivity.
Qed.

(** After [validate], [manual] is set when the georeference is overridden
    and is otherwise as it was; without [global] the four bounds are the
    ones given, and they are given all or none. *)
Theorem validate_manual_and_bounds (o o' : Options) (t t' : list Event) :
  validate o t = (inr o', t') ->
  manual o' = (global o || any_bound o || manual o) /\
  (global o = false ->
   north o' = north o /\ south o' = south o /\
   east o' = east o /\ west o' = west o /\
   (any_bound o = true -> all_bounds o = true)).
Proof.
  intros H. apply validate_inr_inv in H. destruct H as [Ha [-> _]].
  unfold acceptable in Ha. rewrite !andb_true_iff in Ha.
  destruct Ha as [[[_ Ho] _] _].
  unfold validated, default_output_file_name. split.
  - destruct (global o || any_bound o), (global o), (String.eqb _ _);
      reflexivity.
  - intros Hg. rewrite Hg in *. cbn [orb] in *.
    assert (Hall : any_bound o = true -> all_bounds o = true).
    { intros Hany. rewrite Hany in Ho. cbn [negb orb] in Ho.
      apply andb_true_iff in Ho. tauto. }
    destruct (any_bound o), (String.eqb _ _);
      (split; [|split; [|split; [|split]]]); try reflexivity; exact Hall.
Qed.

Lemma validated_acceptable o :
  acceptable o = true -> acceptable (validated o) = true.
Proof.
  unfold acceptable, validated, default_output_file_name, any_bound, all_bounds.
  destruct (global o) eqn:Hg; cbn [orb];
    [|destruct (Tristate.set (north o) || Tristate.set (south o)
                || Tristate.set (east o) || Tristate.set (west o)) eqn:Hany];
    destruct (String.eqb _ _);
    cbn [global north south east west input_files help datum mode
         module_name proj set_manual set_bounds set_output_file_name
         Tristate.assign Tristate.set orb andb negb];
    try rewrite Hg; try rewrite Hany; cbn [orb andb negb];
    rewrite ?orb_true_r; intros H; exact H.
Qed.

Lemma validated_idem o : validated (validated o) = validated o.
Proof.
  destruct o. unfold validated, default_output_file_name, any_bound.
  cbn. 
  repeat match goal with
         | |- context [if ?c then _ else _] =>
             match c with
             | context [if _ then _ else _] => fail 1
             | _ => destruct c eqn:?
             end; cbn in *
         end; try reflexivity; try congruence.
Qed.

Lemma validate_accepts_iff_witness :
  exists o' t',
    validate (with_mode (with_input_files Options_init ["a.tif"; "b.tif"]%string)
                        Mode.KML) [] = (inr o', t').
Proof.
  apply (proj2 (validate_accepts_iff
                  (with_mode (with_input_files Options_init
                                ["a.tif"; "b.tif"]%string) Mode.KML) [])).
  reflexivity.
Defined.

Lemma validate_one_global :
  validate one_global [] = (inr (validated one_global), []).
Proof. vm_compute. reflexivity. Qed.

Lemma validate_writer_defaults_witness :
  ~ In (set_default_quality 75) (validate_events one_global).
Proof.
  destruct (validate_writer_defaults one_global _ [] _ validate_one_global)
    as [_ [H _]].
  apply H. reflexivity.
Defined.

Lemma validate_keeps_fields_witness :
  input_files (validated one_global) = ["dir/a.tif"%string].
Proof.
  destruct (validate_keeps_fields one_global _ [] _ validate_one_global)
    as [H _].
  exact H.
Defined.

Lemma validate_output_file_name_witness :
  exists f rest,
    input_files one_global = f :: rest /\
    output_file_name (validated one_global) = replace_extension f.
Proof.
  destruct (validate_output_file_name one_global _ [] _ validate_one_global)
    as [f [rest [H1 H2]]].
  exists f, rest. split; [exact H1|exact H2].
Defined.

Lemma validate_manual_and_bounds_witness :
  manual (validated one_global) = true.
Proof.
  destruct (validate_manual_and_bounds one_global _ [] _ validate_one_global)
    as [H _].
  exact H.
Defined.

Lemma validated_events o : validate_events (validated o) = validate_events o.
Proof.
  unfold validate_events. destruct (validated_fields o) as [_ [_ [_ [_ [-> ->]]]]].
  reflexivity.
Qed.

(** Validating validated options again succeeds, changes nothing, and
    sets the same writer defaults. *)
Theorem validate_idempotent (o o' : Options) (t t' u : list Event) :
  validate o t = (inr o', t') ->
  validate o' u = (inr o', u ++ validate_events o).
Proof.
  intros H. apply validate_inr_inv in H. destruct H as [Ha [-> _]].
  destruct (validate_eq (validated o) u) as [msg E].
  rewrite (validated_acceptable o Ha) in E.
  rewrite validated_idem, validated_events in E. exact E.
Qed.

Lemma validate_idempotent_witness :
  validate (validated one_global) [] = (inr (validated one_global), []).
Proof.
  exact (validate_idempotent one_global _ [] _ [] validate_one_global).
Defined.

(** After [validate], when [do_mosaic] takes the path of the plain
    quad-tree (no mode or no projection) there is exactly one input file;
    [do_mosaic] opens it, performs the actions of [do_normal_mosaic] and
    returns, whatever the resolution and georeferences. *)
Theorem validate_then_plain_mosaic (o o' : Options) (t t' : list Event) :
  validate o t = (inr o', t') ->
  Mode.eqb (mode o') Mode.NONE
    || Projection.is_NONE (proj_.type (proj o')) = true ->
  exists f,
    input_files o' = [f] /\
    forall lo hi tr georeferences u,
      do_mosaic o' lo hi tr georeferences u =
      (inr tt, u ++ normal_mosaic_events o' f).
Proof.
  intros H Hp. apply validate_inr_inv in H. destruct H as [Ha [-> _]].
  destruct (validated_fields o) as [Ei [Em [_ [Epr _]]]].
  rewrite Em, Epr in Hp.
  assert (Hl : Nat.eqb (List.length (input_files o)) 1 = true).
  { unfold acceptable in Ha. rewrite !andb_true_iff in Ha.
    destruct Ha as [[_ Hm] Hpr].
    destruct (mode o); cbn in Hp; try exact Hm;
      rewrite Hp in Hpr; exact Hpr. }
  destruct (input_files o) as [|f [|g rest]] eqn:Ef; try discriminate.
  exists f. split; [congruence|].
  intros lo hi tr georeferences u. unfold do_mosaic.
  rewrite Em, Epr, Hp. unfold do_normal_mosaic, normal_mosaic_events.
  rewrite Ei, Em. cbn [nth].
  unfold bind, emit, when, ret.
  destruct (Mode.eqb (mode o) Mode.NONE); cbn [negb];
    repeat rewrite <- app_assoc; reflexivity.
Qed.

Lemma validate_then_plain_mosaic_witness :
  exists f,
    input_files (validated one_global) = [f] /\
    do_mosaic (validated one_global) 0 1 1024 [] [] =
    (inr tt, [] ++ normal_mosaic_events (validated one_global) f).
Proof.
  destruct (validate_then_plain_mosaic one_global _ [] _ validate_one_global
              eq_refl) as [f [H1 H2]].
  exists f. split; [exact H1|apply H2].
Defined.

(* ------------------------------------------------------------------ *)
(** ** The aligned box on its grid *)

(** Where the aligned box lies: on the grid of step [d = dim], one or two
    cells long on each axis starting at, or one cell before, the cell of
    the origin of [b]. *)
Lemma aligner_position tr xres yres b :
  tr < 2 ^ 30 -> xres <= tr -> yres <= tr -> within_canvas xres yres b ->
  let d := kml_dim tr b in
  let out := kml_align tr xres yres b in
  exists qx qy,
    0 <= qx /\ 0 <= qy /\
    qx * d <= min_x b < qx * d + d /\
    qy * d <= min_y b < qy * d + d /\
    ((min_x out = qx * d /\ max_x out = qx * d + d /\
      min_y out = qy * d /\ max_y out = qy * d + d) \/
     (d < tr /\
      ((qx * d + d = xres /\ min_x out = qx * d - d /\ max_x out = qx * d + d) \/
       (qx * d + d <> xres /\ min_x out = qx * d /\ max_x out = qx * d + 2 * d)) /\
      ((qy * d + d = yres /\ min_y out = qy * d - d /\ max_y out = qy * d + d) \/
       (qy * d + d <> yres /\ min_y out = qy * d /\ max_y out = qy * d + 2 * d)))).
Proof.
  intros Htr Hxres Hyres [Hx Hy] d out.
  destruct (aligner_dim tr xres yres b Htr Hxres Hyres Hx Hy) as [Hd [Hmd Hd0]].
  fold d in Hd, Hmd, Hd0.
  assert (Hw : width b <= d /\ height b <= d) by lia.
  destruct (snap_spec (min_x b) d ltac:(lia) Hd0) as [qx [Hqx [Ex Bx]]].
  destruct (snap_spec (min_y b) d ltac:(lia) Hd0) as [qy [Hqy [Ey By]]].
  assert (Hsx : 0 <= qx * d) by nia.
  assert (Hsy : 0 <= qy * d) by nia.
  exists qx, qy. repeat (split; [assumption|]).
  unfold out, kml_align. fold d. rewrite Ex, Ey.
  unfold width, height in Hw.
  destruct (contains (BBox2i_xywh (qx * d) (qy * d) d d) b) eqn:Hc; cbn [negb].
  - left. bbox_simpl. repeat split.
  - right.
    assert (Hnt : d < tr /\ d <= 2 ^ 29).
    { destruct Hd as [E|E]; [|tauto]. exfalso.
      assert (qx = 0) by nia. assert (qy = 0) by nia. subst qx qy.
      unfold contains in Hc; bbox_simpl.
      cbn [BBox2i_xywh max_x max_y min_x min_y] in Hc.
      repeat rewrite andb_false_iff in Hc.
      repeat rewrite Z.leb_gt in Hc. lia. }
    destruct Hnt as [Hlt H29]. split; [exact Hlt|].
    unfold Int32.sub, Int32.add. bbox_simpl.
    destruct (Z.eqb_spec (qx * d + d) xres) as [Hex|Hex]; bbox_simpl;
      destruct (Z.eqb_spec (qy * d + d) yres) as [Hey|Hey]; bbox_simpl;
      repeat (rewrite wrap_in_range by int_range);
      (split; [first [left; repeat split; lia | right; repeat split; lia]
              |first [left; repeat split; lia | right; repeat split; lia]]).
Qed.

(** The four edges of the aligned box lie on multiples of [dim], and its
    origin is less than [2 * dim] before the origin of the input box. *)
Theorem kml_align_on_grid (tr aspect : Z) (b : BBox2i) :
  tr < 2 ^ 30 ->
  within_canvas (Z.quot tr aspect) tr b ->
  let d := kml_dim tr b in
  let out := kml_align tr (Z.quot tr aspect) tr b in
  (d | min_x out) /\ (d | max_x out) /\ (d | min_y out) /\ (d | max_y out) /\
  min_x b - 2 * d < min_x out <= min_x b /\
  min_y b - 2 * d < min_y out <= min_y b.
Proof.
  intros Htr Hc d out.
  destruct (canvas_width_le _ _ _ Hc) as [Htr0 Hxres].
  destruct (aligner_position tr _ tr b Htr Hxres (Z.le_refl _) Hc)
    as [qx [qy [Hqx [Hqy [Bx [By Hpos]]]]]].
  fold d in Bx, By, Hpos. fold out in Hpos.
  destruct Hpos as [[E1 [E2 [E3 E4]]]|[_ [[[_ [E1 E2]]|[_ [E1 E2]]] [[_ [E3 E4]]|[_ [E3 E4]]]]]];
    rewrite E1, E2, E3, E4;
    (repeat split;
     try lia;
     first [ exists qx; lia | exists (qx + 1); lia | exists (qx - 1); lia
           | exists (qx + 2); lia
           | exists qy; lia | exists (qy + 1); lia | exists (qy - 1); lia
           | exists (qy + 2); lia ]).
Qed.

Lemma kml_align_on_grid_witness :
  let b := BBox2i_xywh 500 0 100 10 in
  (kml_dim 1024 b | min_x (kml_align 1024 (Z.quot 1024 1) 1024 b)).
Proof.
  intros b.
  destruct (kml_align_on_grid 1024 1 b) as [H _].
  - lia.
  - unfold within_canvas; cbn; lia.
  - exact H.
Defined.

(** The side of the aligned square is at least the longer side of the
    input box, at most four times that, and less than twice the total
    resolution. *)
Theorem kml_align_side_bounds (tr aspect : Z) (b : BBox2i) :
  tr < 2 ^ 30 ->
  within_canvas (Z.quot tr aspect) tr b ->
  let m := Z.max (width b) (height b) in
  let out := kml_align tr (Z.quot tr aspect) tr b in
  m <= width out <= 4 * m /\ width out < 2 * tr.
Proof.
  intros Htr Hc m out.
  destruct (canvas_width_le _ _ _ Hc) as [Htr0 Hxres].
  pose proof Hc as [Hx Hy].
  pose proof (aligner_shape tr _ tr b Htr Hxres (Z.le_refl _) Hx Hy) as [_ Hshape].
  fold out in Hshape.
  pose proof (aligner_dim tr _ tr b Htr Hxres (Z.le_refl _) Hx Hy) as [Hd [Hmd Hd0]].
  destruct (aligner_m_range tr _ tr b Htr Hxres (Z.le_refl _) Hx Hy) as [Hm Hmt].
  fold m in Hmd, Hm, Hmt, Hd, Hshape.
  pose proof (ilog2_bounds m ltac:(lia)) as Hb.
  pose proof (ilog2_lt_30 m Hm) as Hk.
  assert (Hd2 : kml_dim tr b <= 2 * m).
  { rewrite kml_dim_eq by exact Hm. fold m.
    rewrite Z.pow_add_r in * by lia. lia. }
  destruct Hshape as [[Ew _]|[Ew [_ [_ Hlt]]]]; rewrite Ew; lia.
Qed.

Lemma kml_align_side_bounds_witness :
  let b := BBox2i_xywh 500 0 100 10 in
  width (kml_align 1024 (Z.quot 1024 1) 1024 b) <= 400.
Proof.
  intros b.
  destruct (kml_align_side_bounds 1024 1 b) as [[_ H] _].
  - lia.
  - unfold within_canvas; cbn; lia.
  - exact H.
Defined.

(** With a power of two for resolution, [dim] divides the resolution. *)
Lemma kml_dim_divides_resolution tr xres yres b :
  tr < 2 ^ 30 -> xres <= tr -> yres <= tr -> within_canvas xres yres b ->
  is_pow2 tr = true ->
  exists n, 1 <= n /\ tr = n * kml_dim tr b.
Proof.
  intros Htr Hxres Hyres [Hx Hy] Hp.
  destruct (aligner_dim tr xres yres b Htr Hxres Hyres Hx Hy) as [Hd [Hmd Hd0]].
  destruct (aligner_m_range tr xres yres b Htr Hxres Hyres Hx Hy) as [Hm Hmt].
  pose proof (ilog2_lt_30 _ Hm) as Hk.
  destruct Hd as [E|[E [Hlt _]]].
  - exists 1. lia.
  - destruct (is_pow2_spec _ Hp) as [Hj Ej].
    set (k := ilog2 (Z.max (width b) (height b))) in *.
    rewrite E in Hlt. rewrite Ej in Hlt.
    apply Z.pow_lt_mono_r_iff in Hlt; [|lia|lia].
    exists (2 ^ (Z.log2 tr - (k + 1))). split.
    + assert (0 < 2 ^ (Z.log2 tr - (k + 1))) by (apply Z.pow_pos_nonneg; lia). lia.
    + rewrite E, <- Z.pow_add_r by lia.
      replace (Z.log2 tr - (k + 1) + (k + 1)) with (Z.log2 tr) by lia.
      exact Ej.
Qed.

(** With a power of two for total resolution and an aspect ratio of 1,
    the aligned box stays inside the canvas. *)
Theorem kml_align_stays_in_canvas (tr : Z) (b : BBox2i) :
  tr < 2 ^ 30 -> is_pow2 tr = true ->
  within_canvas (Z.quot tr 1) tr b ->
  let out := kml_align tr (Z.quot tr 1) tr b in
  within_canvas (Z.quot tr 1) tr out.
Proof.
  intros Htr Hp Hc out. subst out.
  destruct (canvas_width_le _ _ _ Hc) as [Htr0 Hxres].
  rewrite Z.quot_1_r in *.
  destruct (kml_dim_divides_resolution tr tr tr b Htr (Z.le_refl _) (Z.le_refl _) Hc Hp)
    as [n [Hn En]].
  destruct (aligner_position tr tr tr b Htr (Z.le_refl _) (Z.le_refl _) Hc)
    as [qx [qy [Hqx [Hqy [Bx [By Hpos]]]]]].
  destruct Hc as [Hx Hy].
  destruct (aligner_dim tr tr tr b Htr (Z.le_refl _) (Z.le_refl _) Hx Hy) as [_ [_ Hd0]].
  set (d := kml_dim tr b) in *.
  assert (Hqxn : qx + 1 <= n) by nia.
  assert (Hqyn : qy + 1 <= n) by nia.
  assert (Hsx : 0 <= qx * d) by nia.
  assert (Hsy : 0 <= qy * d) by nia.
  assert (Hmx : (qx + 1) * d <= n * d) by nia.
  assert (Hmy : (qy + 1) * d <= n * d) by nia.
  unfold within_canvas.
  destruct Hpos as [[E1 [E2 [E3 E4]]]|[Hlt [[[Ex [E1 E2]]|[Ex [E1 E2]]] [[Ey [E3 E4]]|[Ey [E3 E4]]]]]];
    rewrite E1, E2, E3, E4.
  - repeat split; lia.
  - assert (1 <= qx) by nia. assert (1 <= qy) by nia.
    assert (1 * d <= qx * d) by nia. assert (1 * d <= qy * d) by nia.
    repeat split; lia.
  - assert (1 <= qx) by nia. assert (1 * d <= qx * d) by nia.
    assert (qy + 2 <= n) by nia. assert ((qy + 2) * d <= n * d) by nia.
    repeat split; lia.
  - assert (1 <= qy) by nia. assert (1 * d <= qy * d) by nia.
    assert (qx + 2 <= n) by nia. assert ((qx + 2) * d <= n * d) by nia.
    repeat split; lia.
  - assert (qx + 2 <= n) by nia. assert ((qx + 2) * d <= n * d) by nia.
    assert (qy + 2 <= n) by nia. assert ((qy + 2) * d <= n * d) by nia.
    repeat split; lia.
Qed.

Lemma kml_align_stays_in_canvas_witness :
  within_canvas (Z.quot 1024 1) 1024
    (kml_align 1024 (Z.quot 1024 1) 1024 (BBox2i_xywh 900 1000 124 24)).
Proof.
  apply kml_align_stays_in_canvas.
  - lia.
  - reflexivity.
  - unfold within_canvas; cbn; lia.
Defined.

(** The aligner returns a box unchanged exactly when the box already is
    [total_resolution] wide and high. *)
Theorem kml_align_fixed_point (tr aspect : Z) (b : BBox2i) :
  tr < 2 ^ 30 ->
  within_canvas (Z.quot tr aspect) tr b ->
  (kml_align tr (Z.quot tr aspect) tr b = b <->
   width b = tr /\ height b = tr).
Proof.
  intros Htr Hc.
  destruct (canvas_width_le _ _ _ Hc) as [Htr0 Hxres].
  split.
  - intros E. pose proof Hc as [Hx Hy].
    pose proof (aligner_shape tr _ tr b Htr Hxres (Z.le_refl _) Hx Hy) as [_ Hshape].
    rewrite E in Hshape.
    pose proof (aligner_dim tr _ tr b Htr Hxres (Z.le_refl _) Hx Hy) as [Hd [Hmd Hd0]].
    destruct (aligner_m_range tr _ tr b Htr Hxres (Z.le_refl _) Hx Hy) as [Hm Hmt].
    pose proof (ilog2_bounds _ ltac:(apply Hm)) as Hb.
    destruct Hshape as [[Ew Eh]|[Ew [Eh _]]]; [|lia].
    destruct Hd as [Ed|[Ed _]]; lia.
  - intros [Hw Hh]. apply kml_align_full_canvas; assumption.
Qed.

Lemma kml_align_fixed_point_witness :
  kml_align 1024 (Z.quot 1024 1) 1024 (BBox2i_xywh 0 0 1024 1024) =
  BBox2i_xywh 0 0 1024 1024.
Proof.
  apply (kml_align_fixed_point 1024 1 (BBox2i_xywh 0 0 1024 1024)).
  - lia.
  - unfold within_canvas; cbn; lia.
  - split; reflexivity.
Defined.

(* ------------------------------------------------------------------ *)
(** ** Reprojection and assembly *)

(** Whatever branch reprojects an input (cylindrical, corrected, plain),
    the resulting view is placed on the forward box of the image and has
    its width and height. *)
Theorem reproject_placement (opt : Options) (lo hi : Q) (file : string)
    (img : InputImage) :
  snd (reproject opt lo hi file img) = forward_bbox img /\
  view_cols (fst (reproject opt lo hi file img)) = width (forward_bbox img) /\
  view_rows (fst (reproject opt lo hi file img)) = height (forward_bbox img).
Proof.
  unfold reproject.
  destruct (is_global img), (origin_fault img); repeat split.
Qed.

(** A source that starts at or beyond the right edge of the canvas is
    inserted only shifted left by the total resolution when it reaches
    past the total resolution, and is not inserted at all otherwise; the
    shifted position of a source that starts beyond the total resolution
    is not negative. *)
Theorem insert_source_beyond_canvas (tr xres : Z)
    (composite : ImageComposite) (source : View) (bbox : BBox2i) :
  (xres <= min_x bbox -> tr < max_x bbox ->
   insert_source tr xres composite source bbox =
   composite ++ [mkInsertion source (Int32.sub (min_x bbox) tr) (min_y bbox)]) /\
  (xres <= min_x bbox -> max_x bbox <= tr ->
   insert_source tr xres composite source bbox = composite) /\
  (tr <= min_x bbox -> Int32.in_range (min_x bbox - tr) ->
   0 <= Int32.sub (min_x bbox) tr).
Proof.
  unfold insert_source, insert. repeat split.
  - intros H1 H2. apply Z.ltb_lt in H2. apply Z.ltb_ge in H1.
    rewrite H1, H2. reflexivity.
  - intros H1 H2. apply Z.ltb_ge in H1. apply Z.ltb_ge in H2.
    rewrite H1, H2. reflexivity.
  - intros H1 H2. unfold Int32.sub. rewrite wrap_in_range by exact H2. lia.
Qed.

Lemma insert_source_beyond_canvas_witness :
  insert_source 1024 1024 [] (DiskImageView "a.tif" 512 512)
                (BBox2i_xywh 1100 0 512 512) =
  [mkInsertion (DiskImageView "a.tif" 512 512) 76 0] /\
  insert_source 1024 512 [] (DiskImageView "a.tif" 256 256)
                (BBox2i_xywh 600 0 256 256) = [].
Proof.
  split.
  - destruct (insert_source_beyond_canvas 1024 1024 []
                (DiskImageView "a.tif" 512 512) (BBox2i_xywh 1100 0 512 512))
      as [H _].
    apply H; cbn; lia.
  - destruct (insert_source_beyond_canvas 1024 512 []
                (DiskImageView "a.tif" 256 256) (BBox2i_xywh 600 0 256 256))
      as [_ [H _]].
    apply H; cbn; lia.
Defined.

Lemma insert_source_added tr xres composite source bbox :
  exists added,
    insert_source tr xres composite source bbox = composite ++ added /\
    (List.length added <= 2)%nat /\
    Forall (fun i => ins_image i = source /\ ins_y i = min_y bbox) added.
Proof.
  unfold insert_source, insert.
  destruct (tr <? max_x bbox), (min_x bbox <? xres).
  - eexists. rewrite <- app_assoc. split; [reflexivity|].
    split; [cbn; lia|]. repeat constructor.
  - eexists. split; [reflexivity|]. split; [cbn; lia|]. repeat constructor.
  - eexists. split; [reflexivity|]. split; [cbn; lia|]. repeat constructor.
  - exists []. rewrite app_nil_r. split; [reflexivity|].
    split; [cbn; lia|]. constructor.
Qed.

(** For inputs that open and transform (an [InputImage] each), the loop
    opens every file once, in order, keeps what the composite held, and
    adds at most two insertions per file, each of the size and at the
    height of the placement box of one of the files. *)
Theorem assemble_opens_and_inserts (opt : Options) (lo hi : Q) (tr xres : Z)
    (files : list (string * InputImage)) (composite : ImageComposite)
    (t : list Event) :
  exists added,
    assemble opt lo hi tr xres files composite t =
      (inr (composite ++ added), t ++ opened files) /\
    (List.length added <= 2 * List.length files)%nat /\
    Forall (placed_from files) added.
Proof.
  revert composite t.
  induction files as [|[filename img] rest IH]; intros composite t.
  - exists []. cbn. rewrite !app_nil_r.
    split; [reflexivity|split; [lia|constructor]].
  - cbn [assemble]. unfold bind, emit.
    pose proof (reproject_placement opt lo hi filename img) as [Eb [Ec Er]].
    destruct (reproject opt lo hi filename img) as [source bbox].
    cbn [fst snd] in Eb, Ec, Er. subst bbox.
    destruct (insert_source_added tr xres composite source (forward_bbox img))
      as [a1 [E1 [L1 F1]]].
    rewrite E1.
    destruct (IH (composite ++ a1) (t ++ [open_image filename]))
      as [a2 [E2 [L2 F2]]].
    exists (a1 ++ a2). rewrite E2. cbn [opened map fst].
    rewrite <- !app_assoc. split; [reflexivity|]. split.
    + rewrite length_app. cbn [List.length]. lia.
    + apply Forall_app. split.
      * eapply Forall_impl; [|exact F1]. intros i [Hi Hy].
        exists filename, img. rewrite Hi, Hy.
        split; [left; reflexivity|]. repeat split; assumption.
      * eapply Forall_impl; [|exact F2]. intros i [f [g [Hin H]]].
        exists f, g. split; [right; exact Hin|exact H].
Qed.

(* ------------------------------------------------------------------ *)
(** ** The whole of [do_mosaic] *)

Lemma crop_within_canvas b xres yres :
  let c := crop b (BBox2i_xywh 0 0 xres yres) in
  0 < width c -> 0 < height c -> within_canvas xres yres c.
Proof.
  unfold within_canvas, crop, width, height, BBox2i_xywh.
  cbn [min_x min_y max_x max_y]. lia.
Qed.

Lemma mode_eqb_KML m : Mode.eqb m Mode.KML = true -> m = Mode.KML.
Proof. destruct m; cbn; congruence. Qed.

(** When both assertions pass, [tile_composite] performs [tile_events]. *)
Lemma tile_composite_success opt tr xres yres composite t :
  let total_bbox :=
    crop (composite_bbox composite) (BBox2i_xywh 0 0 xres yres) in
  let aligned :=
    if Mode.eqb (mode opt) Mode.KML
    then kml_align tr xres yres total_bbox else total_bbox in
  0 < width total_bbox -> 0 < height total_bbox ->
  0 < width aligned -> 0 < height aligned ->
  tile_composite opt tr xres yres composite t =
  (inr tt, t ++ tile_events opt composite aligned xres yres).
Proof.
  intros total_bbox aligned Hw Hh Haw Hah. unfold tile_composite.
  fold total_bbox. cbv zeta. fold aligned.
  apply Z.ltb_lt in Hw, Hh, Haw, Hah.
  unfold bind, when, VW_ASSERT, ret, throw, emit, emit_all, tile_events.
  rewrite Hw, Hh, Haw, Hah. cbn [andb].
  destruct (multiband opt), (Tristate.set (tile_size opt)),
    (Tristate.set (output_file_type opt)); cbn [negb];
    repeat rewrite <- app_assoc; cbn [app]; rewrite ?app_nil_r; reflexivity.
Qed.

(** In a georeferenced mode (in KML mode with a total resolution below
    [2^30]), when the cropped union box has a positive width and height
    [do_mosaic] returns normally after the actions [tile_events] on the
    aligned box; and the assertion on the rows and columns of the prepared
    composite never fails. *)
Theorem do_mosaic_success (opt : Options) (lo hi : Q) (tr : Z)
    (georeferences : list InputImage) (t : list Event) :
  Mode.eqb (mode opt) Mode.NONE
    || Projection.is_NONE (proj_.type (proj opt)) = false ->
  Tristate.value (aspect_ratio opt) <> 0 ->
  ~ (tr = Int32.min_int /\ Tristate.value (aspect_ratio opt) = -1) ->
  (mode opt = Mode.KML -> tr < 2 ^ 30) ->
  let xres := Z.quot tr (Tristate.value (aspect_ratio opt)) in
  let files := combine (input_files opt) georeferences in
  exists composite,
    assemble opt lo hi tr xres files [] t = (inr composite, t ++ opened files) /\
    let total_bbox :=
      crop (composite_bbox composite) (BBox2i_xywh 0 0 xres tr) in
    let aligned :=
      if Mode.eqb (mode opt) Mode.KML
      then kml_align tr xres tr total_bbox else total_bbox in
    (0 < width total_bbox /\ 0 < height total_bbox ->
     do_mosaic opt lo hi tr georeferences t =
       (inr tt, (t ++ opened files)
                ++ tile_events opt composite aligned xres tr)) /\
    fst (do_mosaic opt lo hi tr georeferences t) <>
      inl (LogicErr empty_composite_message).
Proof.
  intros Hmode Ha0 Ha1 Hk xres files.
  destruct (assemble_total opt lo hi tr xres files [] t) as [composite Hc].
  exists composite. split; [exact Hc|]. cbv zeta.
  assert (Hd : do_mosaic opt lo hi tr georeferences t =
               tile_composite opt tr xres tr composite (t ++ opened files)).
  { unfold do_mosaic. rewrite Hmode. unfold bind at 1. unfold div32.
    destruct (Z.eqb_spec (Tristate.value (aspect_ratio opt)) 0) as [E|_];
      [contradiction|]. cbn [orb].
    destruct (Z.eqb_spec tr Int32.min_int) as [E1|_];
      [destruct (Z.eqb_spec (Tristate.value (aspect_ratio opt)) (-1)) as [E2|_];
       [exfalso; apply Ha1; split; assumption|]|]; cbn [andb];
      unfold ret at 1; cbv beta iota; unfold bind at 1;
      fold xres; fold files; rewrite Hc; reflexivity. }
  rewrite Hd.
  set (total_bbox := crop (composite_bbox composite) (BBox2i_xywh 0 0 xres tr)).
  assert (Hok : 0 < width total_bbox /\ 0 < height total_bbox ->
                tile_composite opt tr xres tr composite (t ++ opened files) =
                (inr tt, (t ++ opened files)
                   ++ tile_events opt composite
                        (if Mode.eqb (mode opt) Mode.KML
                         then kml_align tr xres tr total_bbox else total_bbox)
                        xres tr)).
  { intros [Hw Hh]. apply tile_composite_success; fold total_bbox; try assumption;
      destruct (Mode.eqb (mode opt) Mode.KML) eqn:Em; try assumption.
    - apply mode_eqb_KML in Em. specialize (Hk Em).
      pose proof (crop_within_canvas (composite_bbox composite) xres tr Hw Hh) as Hin.
      fold total_bbox in Hin.
      destruct (canvas_width_le _ _ _ Hin) as [Htr0 Hxres].
      pose proof Hin as [Hx Hy].
      pose proof (aligner_shape tr _ tr total_bbox Hk Hxres (Z.le_refl _) Hx Hy) as [_ Hs].
      pose proof (aligner_dim tr _ tr total_bbox Hk Hxres (Z.le_refl _) Hx Hy) as [_ [_ Hd0]].
      fold xres in Hs. destruct Hs as [[? ?]|[? [? _]]]; lia.
    - apply mode_eqb_KML in Em. specialize (Hk Em).
      pose proof (crop_within_canvas (composite_bbox composite) xres tr Hw Hh) as Hin.
      fold total_bbox in Hin.
      destruct (canvas_width_le _ _ _ Hin) as [Htr0 Hxres].
      pose proof Hin as [Hx Hy].
      pose proof (aligner_shape tr _ tr total_bbox Hk Hxres (Z.le_refl _) Hx Hy) as [_ Hs].
      pose proof (aligner_dim tr _ tr total_bbox Hk Hxres (Z.le_refl _) Hx Hy) as [_ [_ Hd0]].
      fold xres in Hs. destruct Hs as [[? ?]|[? [? _]]]; lia. }
  split; [exact Hok|].
  destruct (Z.ltb_spec 0 (width total_bbox)) as [Hw|Hw];
    [destruct (Z.ltb_spec 0 (height total_bbox)) as [Hh|Hh]|].
  - rewrite Hok by (split; assumption). discriminate.
  - destruct (tile_composite_assert opt tr xres tr composite (t ++ opened files))
      as [Hfail _].
    fold total_bbox in Hfail. rewrite Hfail by lia. cbn [fst].
    intros E. apply messages_differ. congruence.
  - destruct (tile_composite_assert opt tr xres tr composite (t ++ opened files))
      as [Hfail _].
    fold total_bbox in Hfail. rewrite Hfail by lia. cbn [fst].
    intros E. apply messages_differ. congruence.
Qed.

Lemma do_mosaic_success_witness :
  fst (do_mosaic (with_mode (with_input_files Options_init ["a.tif"%string]) Mode.KML)
                 0 1 1024 [sample_image] []) = inr tt.
Proof.
  destruct (do_mosaic_success
              (with_mode (with_input_files Options_init ["a.tif"%string]) Mode.KML)
              0 1 1024 [sample_image] [])
    as [composite [Ha [Hok _]]].
  - reflexivity.
  - cbn. lia.
  - cbn. intros [H _]. discriminate H.
  - intros _. lia.
  - vm_compute in Ha. injection Ha as <-.
    rewrite Hok; [reflexivity|]. vm_compute. split; reflexivity.
Defined.

Lemma ll_bbox_corners b xres yres :
  let ll := ll_bbox_exact b xres yres in
  (qmin_x ll == lon_of_x xres (min_x b))%Q /\
  (qmin_y ll == lat_of_y yres (max_y b))%Q /\
  (qmax_x ll == lon_of_x xres (max_x b))%Q /\
  (qmax_y ll == lat_of_y yres (min_y b))%Q.
Proof.
  unfold ll_bbox_exact, BBox2_exact_xywh, lon_of_x, lat_of_y, width, height.
  cbn [qmin_x qmin_y qmax_x qmax_y].
  unfold Z.sub. rewrite !inject_Z_plus, !inject_Z_opp. unfold Qdiv, Qminus.
  repeat split; ring.
Qed.

(* ------------------------------------------------------------------ *)
(** ** The longitude/latitude box *)

(** The longitude/latitude boxes among the stamps of a mode. *)
Lemma stamp_config_ll_bbox opt b xres yres e :
  mode opt = Mode.KML \/ mode opt = Mode.GIGAPAN ->
  (In (set_longlat_bbox e) (stamp_config opt b xres yres) <->
   e = ll_bbox b xres yres).
Proof.
  intros Hm. unfold stamp_config.
  destruct Hm as [Hm|Hm]; rewrite Hm; cbn [In]; split.
  - intros [H|[H|[H|[]]]]; try discriminate. injection H. auto.
  - intros ->. left. reflexivity.
  - intros [H|[]]. injection H. auto.
  - intros ->. left. reflexivity.
Qed.

Lemma tile_events_ll_bbox opt composite aligned xres yres e :
  mode opt = Mode.KML \/ mode opt = Mode.GIGAPAN ->
  (In (set_longlat_bbox e) (tile_events opt composite aligned xres yres) <->
   e = ll_bbox aligned xres yres).
Proof.
  intros Hm. unfold tile_events. rewrite !in_app_iff.
  rewrite (stamp_config_ll_bbox opt aligned xres yres e Hm).
  destruct (multiband opt), (Tristate.set (tile_size opt)),
    (Tristate.set (output_file_type opt)); cbn [In];
    intuition discriminate.
Qed.

Lemma opened_no_ll_bbox files e : ~ In (set_longlat_bbox e) (opened files).
Proof.
  intros Hin. apply opened_only_opens in Hin. destruct Hin as [f E]. discriminate.
Qed.

(** C7, as amended.  In KML and Gigapan modes the longitude/latitude box
    stamped on the configuration by [do_mosaic] is
    [BBox2(x, y, w, h)] computed in doubles from the aligned pixel box,
    with [x = -180 + 360 min.x / xresolution],
    [y = 180 - 360 max.y / yresolution], [w = 360 width / xresolution] and
    [h = 360 height / yresolution]: its min corner is [(x, y)], its max
    corner the rounded sums [(x + w, y + h)].  In exact arithmetic the box
    is the image of the pixel box under
    [lon = -180 + 360 x / xresolution] and
    [lat = 180 - 360 y / yresolution]. *)
Theorem do_mosaic_stamps_ll_bbox (opt : Options) (lo hi : Q) (tr : Z)
    (georeferences : list InputImage) (t : list Event) :
  mode opt = Mode.KML \/ mode opt = Mode.GIGAPAN ->
  Projection.is_NONE (proj_.type (proj opt)) = false ->
  Tristate.value (aspect_ratio opt) <> 0 ->
  ~ (tr = Int32.min_int /\ Tristate.value (aspect_ratio opt) = -1) ->
  (mode opt = Mode.KML -> tr < 2 ^ 30) ->
  let xres := Z.quot tr (Tristate.value (aspect_ratio opt)) in
  let files := combine (input_files opt) georeferences in
  exists composite,
    assemble opt lo hi tr xres files [] t = (inr composite, t ++ opened files) /\
    let total_bbox :=
      crop (composite_bbox composite) (BBox2i_xywh 0 0 xres tr) in
    let aligned :=
      if Mode.eqb (mode opt) Mode.KML
      then kml_align tr xres tr total_bbox else total_bbox in
    let ll := ll_bbox aligned xres tr in
    (0 < width total_bbox /\ 0 < height total_bbox ->
     forall e,
       In (set_longlat_bbox e) (snd (do_mosaic opt lo hi tr georeferences t)) <->
       e = ll \/ In (set_longlat_bbox e) t) /\
    dmin_x ll = lon_double xres (min_x aligned) /\
    dmin_y ll = lat_double tr (max_y aligned) /\
    dmax_x ll =
      PrimFloat.add (dmin_x ll)
        (PrimFloat.div
           (PrimFloat.mul (double_of_int 360) (double_of_int (width aligned)))
           (double_of_int xres)) /\
    dmax_y ll =
      PrimFloat.add (dmin_y ll)
        (PrimFloat.div
           (PrimFloat.mul (double_of_int 360) (double_of_int (height aligned)))
           (double_of_int tr)) /\
    let exact := ll_bbox_exact aligned xres tr in
    (qmin_x exact == lon_of_x xres (min_x aligned))%Q /\
    (qmin_y exact == lat_of_y tr (max_y aligned))%Q /\
    (qmax_x exact == lon_of_x xres (max_x aligned))%Q /\
    (qmax_y exact == lat_of_y tr (min_y aligned))%Q.
Proof.
  intros Hm Hp Ha0 Ha1 Hk xres files.
  assert (Hmode : Mode.eqb (mode opt) Mode.NONE
                  || Projection.is_NONE (proj_.type (proj opt)) = false).
  { rewrite Hp. destruct Hm as [Hm|Hm]; rewrite Hm; reflexivity. }
  destruct (assemble_total opt lo hi tr xres files [] t) as [composite Hc].
  exists composite. split; [exact Hc|]. cbv zeta.
  set (total_bbox := crop (composite_bbox composite) (BBox2i_xywh 0 0 xres tr)).
  set (aligned := if Mode.eqb (mode opt) Mode.KML
                  then kml_align tr xres tr total_bbox else total_bbox).
  split; [|split; [reflexivity|split; [reflexivity|split; [reflexivity|
          split; [reflexivity|apply ll_bbox_corners]]]]].
  intros [Hw Hh] e.
  assert (Hd : do_mosaic opt lo hi tr georeferences t =
               tile_composite opt tr xres tr composite (t ++ opened files)).
  { unfold do_mosaic. rewrite Hmode. unfold bind at 1. unfold div32.
    destruct (Z.eqb_spec (Tristate.value (aspect_ratio opt)) 0) as [E|_];
      [contradiction|]. cbn [orb].
    destruct (Z.eqb_spec tr Int32.min_int) as [E1|_];
      [destruct (Z.eqb_spec (Tristate.value (aspect_ratio opt)) (-1)) as [E2|_];
       [exfalso; apply Ha1; split; assumption|]|]; cbn [andb];
      unfold ret at 1; cbv beta iota; unfold bind at 1;
      fold xres; fold files; rewrite Hc; reflexivity. }
  assert (Hpos : 0 < width aligned /\ 0 < height aligned).
  { unfold aligned. destruct (Mode.eqb (mode opt) Mode.KML) eqn:Em;
      [|split; assumption].
    apply mode_eqb_KML in Em. specialize (Hk Em).
    pose proof (crop_within_canvas (composite_bbox composite) xres tr Hw Hh) as Hin.
    fold total_bbox in Hin.
    destruct (canvas_width_le _ _ _ Hin) as [Htr0 Hxres].
    pose proof Hin as [Hx Hy].
    pose proof (aligner_shape tr _ tr total_bbox Hk Hxres (Z.le_refl _) Hx Hy) as [_ Hs].
    pose proof (aligner_dim tr _ tr total_bbox Hk Hxres (Z.le_refl _) Hx Hy) as [_ [_ Hd0]].
    fold xres in Hs. destruct Hs as [[? ?]|[? [? _]]]; lia. }
  rewrite Hd.
  rewrite (tile_composite_success opt tr xres tr composite (t ++ opened files));
    fold total_bbox; fold aligned; try tauto.
  cbn [snd]. rewrite !in_app_iff.
  rewrite (tile_events_ll_bbox opt composite aligned xres tr e Hm).
  pose proof (opened_no_ll_bbox files e). tauto.
Qed.

Lemma do_mosaic_stamps_ll_bbox_witness :
  In (set_longlat_bbox (ll_bbox (BBox2i_xywh 0 0 512 256) 1024 1024))
     (snd (do_mosaic gigapan_one 0 1 1024 [sample_image] [])).
Proof.
  destruct (do_mosaic_stamps_ll_bbox gigapan_one 0 1 1024 [sample_image] [])
    as [composite [Ha [Hin _]]].
  - right. reflexivity.
  - reflexivity.
  - cbn. lia.
  - cbn. intros [H _]. discriminate H.
  - intros H. discriminate H.
  - vm_compute in Ha. injection Ha as <-.
    apply Hin; [vm_compute; split; reflexivity|]. left. reflexivity.
Defined.

(** Against C7 as stated: in Gigapan mode, for the pixel box from 5 to 341
    at [xresolution] 341 the stamped max longitude is above 180, while
    the image of 341 under the linear map is 180, also in doubles. *)
Lemma ll_bbox_max_corner_rounds :
  let b := BBox2i_xywh 5 0 336 1024 in
  let ll := ll_bbox b 341 1024 in
  stamp_config gigapan_one b 341 1024 = [set_longlat_bbox ll] /\
  max_x b = 341 /\
  lon_double 341 (max_x b) = double_of_int 180 /\
  PrimFloat.ltb (double_of_int 180) (dmax_x ll) = true /\
  dmax_x ll <> lon_double 341 (max_x b).
Proof.
  cbv zeta.
  assert (H1 : lon_double 341 341 = double_of_int 180)
    by (vm_compute; reflexivity).
  assert (H2 : PrimFloat.ltb (double_of_int 180)
                 (dmax_x (ll_bbox (BBox2i_xywh 5 0 336 1024) 341 1024)) = true)
    by (vm_compute; reflexivity).
  repeat split; try assumption.
  intros E. change (max_x (BBox2i_xywh 5 0 336 1024)) with 341 in E.
  rewrite E, H1 in H2. vm_compute in H2. discriminate.
Qed.
